(** * Effective Python snippets: a verification development

    The repository is a collection of independent Python snippets.  This file
    embeds the three most elaborate ones and proves properties of them:

    - [Item30]: the quota bucket, first with a plain [quota] attribute and
      then with a [quota] property over [max_quota] and [quota_consumed],
      together with the free functions [fill] and [deduct];
    - [Item24]: the MapReduce toy ([PathInputData.read],
      [LineCountWorker.map]);
    - [Item26]: the [ToDictMixin] / [JsonMixin] serialization example
      ([DatacenterRack], [Switch], [Machine]).

    Python objects are mutable and passed by reference: buckets and workers
    live in a store indexed by locations, next to the part of the operating
    system the snippets can see (clock, files, standard output).  The objects
    of the serialization example are built once and never updated; they are
    trees.  A call has an outcome: it returns a value or it raises.  The
    definitions come first, module by module; the properties follow. *)

From Stdlib Require Import ZArith Ascii String List Bool Lia.
From stdpp Require Import gmap strings list fin_maps.
Import ListNotations.

Local Open Scope string_scope.
Local Open Scope Z_scope.

(** ** Exceptions and outcomes *)

(** The exception classes the embedded code can raise.  [OSError] carries the
    errno-like tag of a failed [open] or [read]; [ValueError] is what
    [json.loads] raises on malformed text ([json.JSONDecodeError] is a
    subclass).  [SystemError] is not raised by any Python code: it marks a
    reference to a location the store does not hold, which a Python program
    cannot build. *)
Inductive exn :=
| AssertionError
| TypeError
| NotImplementedError
| AttributeError
| ValueError
| OSError (tag : string)
| SystemError.

Inductive outcome (A : Type) :=
| Ok (a : A)
| Raise (e : exn).
Arguments Ok {A} a.
Arguments Raise {A} e.

Definition outcome_bind {A B : Type} (r : outcome A) (k : A -> outcome B) : outcome B :=
  match r with
  | Ok a => k a
  | Raise e => Raise e
  end.

(** The call returned. *)
Definition returned {A : Type} (r : outcome A) : Prop :=
  match r with
  | Ok _ => True
  | Raise _ => False
  end.

(** ** The operating system as the snippets see it *)

(** [clock] is the sequence of instants (microseconds) successive calls of
    [datetime.now()] observe and [ticks] counts the calls made so far;
    [files] gives, for a path, what [open(path).read()] does: the text of the
    file or the exception raised on the way; [stdout] is what was printed. *)
Record Env := mkEnv {
  clock : nat -> Z;
  ticks : nat;
  files : string -> outcome string;
  stdout : list string
}.

(** The environment after one more reading of the clock. *)
Definition tick (e : Env) : Env :=
  {| clock := clock e; ticks := S (ticks e);
     files := files e; stdout := stdout e |}.

(** ** Computations *)

(** State passing with exceptions over a state [S].  A raise keeps the state
    as the statements before it left it, and nothing in the embedded code
    catches: there is no handler combinator. *)
Definition SE (S A : Type) : Type := S -> outcome A * S.

Definition ret {S A : Type} (a : A) : SE S A := fun w => (Ok a, w).
Definition raise {S A : Type} (e : exn) : SE S A := fun w => (Raise e, w).
Definition bind {S A B : Type} (m : SE S A) (k : A -> SE S B) : SE S B :=
  fun w =>
    match m w with
    | (Ok a, w') => k a w'
    | (Raise e, w') => (Raise e, w')
    end.
Definition lift {S A : Type} (r : outcome A) : SE S A := fun w => (r, w).

Notation "'let*' x ':=' m 'in' k" := (bind m (fun x => k))
  (at level 10, x name, m at level 100, k at level 200).
Notation "m ';;;' k" := (bind m (fun _ => k))
  (at level 100, k at level 200, right associativity).

(** ** Objects *)

(** Objects live in a store and are reached through references; the state of
    a process is the store and the environment. *)
Record World (O : Type) := mkWorld {
  env : Env;
  heap : gmap positive O
}.
Arguments mkWorld {O} env heap.
Arguments env {O} w.
Arguments heap {O} w.

(** Following a reference. *)
Definition load {O : Type} (l : positive) : SE (World O) O :=
  fun w =>
    match heap w !! l with
    | Some o => (Ok o, w)
    | None => (Raise SystemError, w)
    end.

(** Writing an object back through a reference. *)
Definition store {O : Type} (l : positive) (o : O) : SE (World O) unit :=
  fun w => (Ok tt, {| env := env w; heap := <[l := o]> (heap w) |}).

(** A new object. *)
Definition alloc {O : Type} (o : O) : SE (World O) positive :=
  fun w =>
    let l := fresh (dom (heap w)) in
    (Ok l, {| env := env w; heap := <[l := o]> (heap w) |}).

(** A process that has created no object yet. *)
Definition boot {O : Type} (e : Env) : World O := {| env := e; heap := ∅ |}.

(** ** Item 30: the quota bucket *)

Module Item30.

(** What [reset_time] can hold: the constructor stores a [datetime], the
    expiry branch of [fill] stores the integer [0]. *)
Inductive stamp :=
| Datetime (us : Z)
| Int (z : Z).

(** The first [class Bucket] (lines 7-14): [quota] is a plain attribute. *)
Record AttrBucket := mkAttrBucket {
  a_period_delta : Z;
  a_reset_time : stamp;
  a_quota : Z
}.

(** The second [class Bucket] (lines 60-89): [quota] is a property. *)
Record PropBucket := mkPropBucket {
  period_delta : Z;
  reset_time : stamp;
  max_quota : Z;
  quota_consumed : Z
}.

(** An object of either class; [fill] and [deduct] are duck-typed over
    both. *)
Inductive object :=
| Attr (b : AttrBucket)
| Prop_ (b : PropBucket).

Abbreviation World := (World object).
Abbreviation M := (SE World).

(** [datetime.now()]: the next reading of the clock. *)
Definition datetime_now : M Z :=
  fun w =>
    (Ok (clock (env w) (ticks (env w))),
     {| env := tick (env w); heap := heap w |}).

(** [timedelta(seconds=period)], in microseconds. *)
Definition timedelta (seconds : Z) : Z := seconds * 1000000.

(** [Bucket(period)] for the first class. *)
Definition Bucket_attr (period : Z) : M positive :=
  let* now := datetime_now in
  alloc (Attr {| a_period_delta := timedelta period;
                 a_reset_time := Datetime now;
                 a_quota := 0 |}).

(** [Bucket(period)] for the second class. *)
Definition Bucket_prop (period : Z) : M positive :=
  let* now := datetime_now in
  alloc (Prop_ {| period_delta := timedelta period;
                  reset_time := Datetime now;
                  max_quota := 0;
                  quota_consumed := 0 |}).

(** The property getter (lines 71-73). *)
Definition quota_getter (self : PropBucket) : Z :=
  max_quota self - quota_consumed self.

(** The property setter (lines 75-89).  Each branch either raises before it
    assigns or cannot raise, so the setter is a function of the object. *)
Definition quota_setter (self : PropBucket) (amount : Z) : outcome PropBucket :=
  let delta := max_quota self - amount in
  if amount =? 0 then
    Ok {| period_delta := period_delta self; reset_time := reset_time self;
          max_quota := 0; quota_consumed := 0 |}
  else if delta <? 0 then
    if quota_consumed self =? 0 then
      Ok {| period_delta := period_delta self; reset_time := reset_time self;
            max_quota := amount; quota_consumed := quota_consumed self |}
    else Raise AssertionError
  else
    if max_quota self >=? quota_consumed self then
      Ok {| period_delta := period_delta self; reset_time := reset_time self;
            max_quota := max_quota self;
            quota_consumed := quota_consumed self + delta |}
    else Raise AssertionError.

(** Attribute access on an object, dispatched on its class: [reset_time] and
    [period_delta] are plain attributes of both classes, [quota] is a plain
    attribute of the first and the property of the second. *)
Definition obj_reset_time (o : object) : stamp :=
  match o with Attr b => a_reset_time b | Prop_ b => reset_time b end.

Definition obj_period_delta (o : object) : Z :=
  match o with Attr b => a_period_delta b | Prop_ b => period_delta b end.

Definition obj_quota (o : object) : Z :=
  match o with Attr b => a_quota b | Prop_ b => quota_getter b end.

Definition obj_set_reset_time (v : stamp) (o : object) : outcome object :=
  match o with
  | Attr b =>
      Ok (Attr {| a_period_delta := a_period_delta b;
                  a_reset_time := v; a_quota := a_quota b |})
  | Prop_ b =>
      Ok (Prop_ {| period_delta := period_delta b; reset_time := v;
                   max_quota := max_quota b;
                   quota_consumed := quota_consumed b |})
  end.

Definition obj_set_quota (v : Z) (o : object) : outcome object :=
  match o with
  | Attr b =>
      Ok (Attr {| a_period_delta := a_period_delta b;
                  a_reset_time := a_reset_time b; a_quota := v |})
  | Prop_ b => outcome_bind (quota_setter b v) (fun b' => Ok (Prop_ b'))
  end.

(** [bucket.attr] and [bucket.attr = v] through a reference. *)
Definition getattr {A : Type} (f : object -> A) (bucket : positive) : M A :=
  let* o := load bucket in
  ret (f o).

Definition setattr (f : object -> outcome object) (bucket : positive) : M unit :=
  let* o := load bucket in
  let* o' := lift (f o) in
  store bucket o'.

(** [now - reset_time]: a [timedelta] when [reset_time] is a [datetime];
    [datetime - int] raises [TypeError]. *)
Definition datetime_sub (now : Z) (t : stamp) : outcome Z :=
  match t with
  | Datetime us => Ok (now - us)
  | Int _ => Raise TypeError
  end.

(** [fill] (lines 17-22). *)
Definition fill (bucket : positive) (amount : Z) : M unit :=
  let* now := datetime_now in
  let* t := getattr obj_reset_time bucket in
  let* age := lift (datetime_sub now t) in
  let* pd := getattr obj_period_delta bucket in
  (if age >? pd then
     setattr (obj_set_quota 0) bucket ;;;
     setattr (obj_set_reset_time (Int 0)) bucket
   else ret tt) ;;;
  let* q := getattr obj_quota bucket in
  setattr (obj_set_quota (q + amount)) bucket.

(** [deduct] (lines 25-32). *)
Definition deduct (bucket : positive) (amount : Z) : M bool :=
  let* now := datetime_now in
  let* t := getattr obj_reset_time bucket in
  let* age := lift (datetime_sub now t) in
  let* pd := getattr obj_period_delta bucket in
  if age >? pd then ret false
  else
    let* q := getattr obj_quota bucket in
    if q - amount <? 0 then ret false
    else
      let* q' := getattr obj_quota bucket in
      setattr (obj_set_quota (q' - amount)) bucket ;;;
      ret true.

(** A call of the client code, and what the client sees of it: the value
    returned and the quota the bucket reports afterwards. *)
Inductive op :=
| Fill (amount : Z)
| Deduct (amount : Z).

Inductive obs :=
| Filled (quota : Z)
| Deducted (ok : bool) (quota : Z).

Definition perform (bucket : positive) (o : op) : M obs :=
  match o with
  | Fill amount =>
      fill bucket amount ;;;
      let* q := getattr obj_quota bucket in
      ret (Filled q)
  | Deduct amount =>
      let* ok := deduct bucket amount in
      let* q := getattr obj_quota bucket in
      ret (Deducted ok q)
  end.

(** A script of calls run to its end or to the first uncaught exception,
    which ends the program. *)
Fixpoint run (bucket : positive) (ops : list op) (w : World) : list (outcome obs) * World :=
  match ops with
  | [] => ([], w)
  | o :: ops' =>
      match perform bucket o w with
      | (Ok x, w') => let (xs, w'') := run bucket ops' w' in (Ok x :: xs, w'')
      | (Raise e, w') => ([Raise e], w')
      end
  end.

(** Construct a bucket with [mk] in a fresh process and run the script. *)
Definition session (mk : Z -> M positive) (period : Z) (ops : list op) (e : Env)
  : list (outcome obs) * World :=
  match mk period (boot e) with
  | (Ok bucket, w) => run bucket ops w
  | (Raise x, w) => ([Raise x], w)
  end.

(** A process whose clock stands still and whose file system is empty. *)
Definition frozen_env : Env :=
  {| clock := fun _ => 0; ticks := 0;
     files := fun _ => Raise (OSError "ENOENT"); stdout := [] |}.

(** Every reading of the clock from the construction of the bucket on falls
    within the period the construction opens: neither [fill] nor [deduct]
    sees the period expired. *)
Definition single_period (e : Env) (period : Z) : Prop :=
  forall n, (ticks e <= n)%nat -> clock e n - clock e (ticks e) <= timedelta period.

(** Two objects of one class. *)
Definition same_class (o o' : object) : Prop :=
  match o, o' with
  | Attr _, Attr _ => True
  | Prop_ _, Prop_ _ => True
  | _, _ => False
  end.

(** What a call leaves alone when it works on the object at [bucket]: the
    files, the output, the clock (which it only reads), every other object,
    the set of objects, and the class of the object at [bucket]. *)
Record frame (bucket : positive) (w w' : World) : Prop := mkFrame {
  frame_files : files (env w') = files (env w);
  frame_stdout : stdout (env w') = stdout (env w);
  frame_clock : clock (env w') = clock (env w);
  frame_others : forall l, l <> bucket -> heap w' !! l = heap w !! l;
  frame_dom : dom (heap w') = dom (heap w);
  frame_class : forall o, heap w !! bucket = Some o ->
    exists o', heap w' !! bucket = Some o' /\ same_class o o'
}.

(** The effect of a call on the object alone while the period lasts (the
    expiry tests of [fill] and [deduct] fail); [perform_in_period] relates
    it to [perform]. *)
Definition obj_perform (o : op) (ob : object) : outcome (obs * object) :=
  match o with
  | Fill amount =>
      outcome_bind (obj_set_quota (obj_quota ob + amount) ob)
        (fun ob' => Ok (Filled (obj_quota ob'), ob'))
  | Deduct amount =>
      if obj_quota ob - amount <? 0 then Ok (Deducted false (obj_quota ob), ob)
      else
        outcome_bind (obj_set_quota (obj_quota ob - amount) ob)
          (fun ob' => Ok (Deducted true (obj_quota ob'), ob'))
  end.

(** A plain bucket and a property bucket that a client cannot tell apart:
    same environment, same period, same quota, both within the period. *)
Definition twins (bucket : positive) (w1 w2 : World) : Prop :=
  env w1 = env w2 /\
  exists a p t0,
    heap w1 !! bucket = Some (Attr a) /\
    heap w2 !! bucket = Some (Prop_ p) /\
    a_reset_time a = Datetime t0 /\ reset_time p = Datetime t0 /\
    a_period_delta a = period_delta p /\
    a_quota a = quota_getter p /\
    0 <= max_quota p /\
    (forall n, (ticks (env w1) <= n)%nat ->
       clock (env w1) n - t0 <= a_period_delta a).

(** The same state over another file system, and the computations that
    cannot tell: they neither consult the files nor change them, so no error
    of the file system can reach them. *)
Definition with_files (f : string -> outcome string) (w : World) : World :=
  {| env := {| clock := clock (env w); ticks := ticks (env w);
               files := f; stdout := stdout (env w) |};
     heap := heap w |}.

Definition blind {A : Type} (m : M A) : Prop :=
  forall f w, m (with_files f w) = (fst (m w), with_files f (snd (m w))).

(** The quota a call is about to assign within the period, if it assigns
    one: [fill] always does, [deduct] only when the amount is available. *)
Definition assigned (o : op) (quota : Z) : option Z :=
  match o with
  | Fill amount => Some (quota + amount)
  | Deduct amount => if quota - amount <? 0 then None else Some (quota - amount)
  end.

(** A call is calm on a property bucket when the quota it assigns is [0]
    (the reset branch of the setter) or when nothing is consumed yet. *)
Definition calm_call (o : op) (ob : object) : bool :=
  match ob with
  | Attr _ => true
  | Prop_ b =>
      match assigned o (quota_getter b) with
      | Some n => (n =? 0) || (quota_consumed b =? 0)
      | None => true
      end
  end.

(** Every call of the script is calm on the object it finds at [bucket]. *)
Fixpoint calm (bucket : positive) (ops : list op) (w : World) : bool :=
  match ops with
  | [] => true
  | o :: ops' =>
      match heap w !! bucket with
      | Some ob => calm_call o ob
      | None => true
      end && calm bucket ops' (snd (perform bucket o w))
  end.

Definition calm_session (period : Z) (ops : list op) (e : Env) : bool :=
  match Bucket_prop period (boot e) with
  | (Ok bucket, w) => calm bucket ops w
  | (Raise _, _) => true
  end.

End Item30.

(** ** Item 24: the MapReduce toy *)

Module Item24.

(** The input classes.  [InputData] (lines 10-12, and [GenericInputData],
    lines 91-97) is the abstract base; [PathInputData] is defined twice
    (lines 14-20 and 100-112) with the same constructor and the same
    [read]. *)
Inductive InputData :=
| AbstractInput
| PathInputData (path : string).

(** What the [result] attribute of a worker can hold. *)
Inductive pyval :=
| PNone
| PInt (z : Z).

(** The worker classes.  [Worker] (lines 23-32, and [GenericWorker], lines
    115-131) is the abstract base; [LineCountWorker] is defined twice (lines
    35-41 and 134-140) with the same [map] and [reduce]. *)
Inductive worker_class :=
| Worker
| LineCountWorker.

Record worker := mkWorker {
  cls : worker_class;
  input_data : InputData;
  result : pyval
}.

Abbreviation World := (World worker).
Abbreviation M := (SE World).

(** [open(path).read()]: whatever the file system answers for the path, the
    text or the exception; there is no handler around it. *)
Definition open_read (path : string) : M string :=
  fun w => (files (env w) path, w).

(** [read] (lines 11-12 and 19-20; lines 92-93 and 105-106). *)
Definition read (self : InputData) : M string :=
  match self with
  | AbstractInput => raise NotImplementedError
  | PathInputData path => open_read path
  end.

(** [Worker.__init__] (lines 24-26 and 116-118), inherited by
    [LineCountWorker]. *)
Definition Worker_init (c : worker_class) (input : InputData) : M positive :=
  alloc {| cls := c; input_data := input; result := PNone |}.

(** [data.count('\n')]. *)
Fixpoint count_newlines (data : string) : Z :=
  match data with
  | EmptyString => 0
  | String c rest =>
      (if Ascii.eqb c "010"%char then 1 else 0) + count_newlines rest
  end.

(** [map] (lines 28-29 and 36-38; lines 120-121 and 135-137): [count] is a
    local variable, and the method returns [None]. *)
Definition map (self : positive) : M unit :=
  let* o := load self in
  match cls o with
  | Worker => raise NotImplementedError
  | LineCountWorker =>
      let* data := read (input_data o) in
      let count := count_newlines data in
      ret tt
  end.

Definition newline : string := String "010"%char EmptyString.

(** A text of two lines. *)
Definition two_lines : string := "x" ++ newline ++ "y" ++ newline.

(** A process with one readable file. *)
Definition one_file_env (path data : string) : Env :=
  {| clock := fun _ => 0; ticks := 0;
     files := fun p => if String.eqb p path then Ok data
                       else Raise (OSError "ENOENT");
     stdout := [] |}.

End Item24.

(** ** Item 26: the serialization mix-ins *)

Module Item26.

(** The classes of the file.  All of them inherit [ToDictMixin];
    [DatacenterRack], [Switch] and [Machine] also inherit [JsonMixin].
    [Plain] stands for any other class whose instances have a [__dict__]. *)
Inductive class :=
| BinaryTree
| BinaryTreeWithParent
| NamedSubTree
| DatacenterRack
| Switch
| Machine
| Plain.

(** Python values as trees: what [json.loads] returns, and instances with
    their [__dict__] in insertion order.  A float is carried as the bit
    pattern of its double; the code never computes with it.  Object graphs
    with cycles (the parent links of lines 64-66) have no counterpart here;
    the objects [from_json] builds are trees. *)
#[warnings="-register-all"]
Inductive value :=
| VNone
| VBool (b : bool)
| VInt (z : Z)
| VFloat (bits : Z)
| VStr (s : string)
| VList (l : list value)
| VDict (d : list (string * value))
| VObj (c : class) (attrs : list (string * value)).

Definition is_ToDictMixin (c : class) : bool :=
  match c with
  | Plain => false
  | _ => true
  end.

Definition is_JsonMixin (c : class) : bool :=
  match c with
  | DatacenterRack | Switch | Machine => true
  | _ => false
  end.

Fixpoint lookup_key (k : string) (d : list (string * value)) : option value :=
  match d with
  | [] => None
  | (k', v) :: rest => if String.eqb k k' then Some v else lookup_key k rest
  end.

Definition has_key (k : string) (d : list (string * value)) : bool :=
  match lookup_key k d with
  | Some _ => true
  | None => false
  end.

(** The override of [BinaryTreeWithParent] (lines 58-62) applies to a
    [BinaryTreeWithParent] stored under the key ['parent']. *)
Definition is_parent_link (self : class) (key : string) (v : value) : bool :=
  match self, v with
  | BinaryTreeWithParent, VObj BinaryTreeWithParent _ => String.eqb key "parent"
  | _, _ => false
  end.

(** [value.value] for an instance. *)
Definition attr_value (v : value) : outcome value :=
  match v with
  | VObj _ attrs =>
      match lookup_key "value" attrs with
      | Some x => Ok x
      | None => Raise AttributeError
      end
  | _ => Raise AttributeError
  end.

(** [self._traverse(key, value)] (lines 21-31), with the dispatch on the
    class of [self] (lines 58-62).  An instance of a mix-in class is
    converted by its own [to_dict], which traverses its [__dict__] as itself;
    a [dict] reaches the call [self._traverse(dict)], which lacks an argument
    and raises [TypeError]; a list is traversed element by element under the
    same key; any other instance has its [__dict__] traversed by [self]. *)
Fixpoint _traverse (self : class) (key : string) (v : value) {struct v}
  : outcome value :=
  let _traverse_dict (self' : class) :=
    fix items (instance_dict : list (string * value))
      : outcome (list (string * value)) :=
      match instance_dict with
      | [] => Ok []
      | (k, x) :: rest =>
          outcome_bind (_traverse self' k x) (fun x' =>
          outcome_bind (items rest) (fun rest' =>
          Ok ((k, x') :: rest')))
      end in
  if is_parent_link self key v then attr_value v
  else
    match v with
    | VObj c attrs =>
        if is_ToDictMixin c
        then outcome_bind (_traverse_dict c attrs) (fun d => Ok (VDict d))
        else outcome_bind (_traverse_dict self attrs) (fun d => Ok (VDict d))
    | VDict _ => Raise TypeError
    | VList l =>
        outcome_bind
          ((fix elements (l : list value) : outcome (list value) :=
              match l with
              | [] => Ok []
              | i :: rest =>
                  outcome_bind (_traverse self key i) (fun i' =>
                  outcome_bind (elements rest) (fun rest' =>
                  Ok (i' :: rest')))
              end) l)
          (fun l' => Ok (VList l'))
    | _ => Ok v
    end.

(** The list comprehension of line 27. *)
Fixpoint _traverse_list (self : class) (key : string) (l : list value)
  : outcome (list value) :=
  match l with
  | [] => Ok []
  | i :: rest =>
      outcome_bind (_traverse self key i) (fun i' =>
      outcome_bind (_traverse_list self key rest) (fun rest' =>
      Ok (i' :: rest')))
  end.

(** [self._traverse_dict(instance_dict)] (lines 15-19). *)
Fixpoint _traverse_dict (self : class) (instance_dict : list (string * value))
  : outcome (list (string * value)) :=
  match instance_dict with
  | [] => Ok []
  | (k, x) :: rest =>
      outcome_bind (_traverse self k x) (fun x' =>
      outcome_bind (_traverse_dict self rest) (fun rest' =>
      Ok ((k, x') :: rest')))
  end.

(** [self.to_dict()] (lines 12-13). *)
Definition to_dict (self : value) : outcome value :=
  match self with
  | VObj c attrs =>
      if is_ToDictMixin c
      then outcome_bind (_traverse_dict c attrs) (fun d => Ok (VDict d))
      else Raise AttributeError
  | _ => Raise AttributeError
  end.

(** [BinaryTree(value, left, right)] (lines 35-38) and
    [BinaryTreeWithParent(value, left, right, parent)] (lines 53-55). *)
Definition BinaryTree_new (v left right : value) : value :=
  VObj BinaryTree [("value", v); ("left", left); ("right", right)].

Definition BinaryTreeWithParent_new (v left right parent : value) : value :=
  VObj BinaryTreeWithParent
    [("value", v); ("left", left); ("right", right); ("parent", parent)].

(** The tree of lines 40-42. *)
Definition tree : value :=
  BinaryTree_new (VInt 10)
    (BinaryTree_new (VInt 7) VNone (BinaryTree_new (VInt 9) VNone VNone))
    (BinaryTree_new (VInt 13) (BinaryTree_new (VInt 11) VNone VNone) VNone).

(** The tree of lines 64-66, every parent link cut to a node without
    children: the override reads nothing of a parent but its [value]. *)
Definition root : value :=
  let above (v : Z) := BinaryTreeWithParent_new (VInt v) VNone VNone VNone in
  BinaryTreeWithParent_new (VInt 10)
    (BinaryTreeWithParent_new (VInt 7) VNone
       (BinaryTreeWithParent_new (VInt 9) VNone VNone (above 7))
       (above 10))
    VNone VNone.

(** A call with a double-star argument: the argument must be a mapping. *)
Definition mapping (v : value) : outcome (list (string * value)) :=
  match v with
  | VDict d => Ok d
  | _ => Raise TypeError
  end.

(** Binding keyword arguments to the parameters of [__init__]: every keyword
    must name a parameter, and a parameter without a default must be
    given. *)
Fixpoint bind_params (params : list (string * option value))
    (kwargs : list (string * value)) : outcome (list value) :=
  match params with
  | [] => Ok []
  | (name, default) :: rest =>
      match lookup_key name kwargs, default with
      | Some v, _ | None, Some v =>
          outcome_bind (bind_params rest kwargs) (fun vs => Ok (v :: vs))
      | None, None => Raise TypeError
      end
  end.

Definition call_kwargs (params : list (string * option value))
    (kwargs : list (string * value)) : outcome (list value) :=
  if forallb (fun kv => existsb (String.eqb (fst kv)) (List.map fst params)) kwargs
  then bind_params params kwargs
  else Raise TypeError.

(** [for kwargs in machines]: the elements of a list, the characters of a
    string, the keys of a dict; anything else is not iterable. *)
Fixpoint chars (s : string) : list value :=
  match s with
  | EmptyString => []
  | String c rest => VStr (String c EmptyString) :: chars rest
  end.

Definition iterate (v : value) : outcome (list value) :=
  match v with
  | VList l => Ok l
  | VStr s => Ok (chars s)
  | VDict d => Ok (List.map (fun kv => VStr (fst kv)) d)
  | _ => Raise TypeError
  end.

(** The call of [Switch] on keyword arguments (lines 107-110). *)
Definition Switch_new (kwargs : value) : outcome value :=
  outcome_bind (mapping kwargs) (fun kw =>
  outcome_bind (call_kwargs [("ports", None); ("speed", None)] kw) (fun args =>
  match args with
  | [ports; speed] => Ok (VObj Switch [("ports", ports); ("speed", speed)])
  | _ => Raise TypeError
  end)).

(** The call of [Machine] on keyword arguments (lines 112-116). *)
Definition Machine_new (kwargs : value) : outcome value :=
  outcome_bind (mapping kwargs) (fun kw =>
  outcome_bind
    (call_kwargs [("cores", None); ("ram", None); ("disk", None)] kw) (fun args =>
  match args with
  | [cores; ram; disk] =>
      Ok (VObj Machine [("cores", cores); ("ram", ram); ("disk", disk)])
  | _ => Raise TypeError
  end)).

(** The list comprehension of lines 104-105. *)
Fixpoint machines_of (items : list value) : outcome (list value) :=
  match items with
  | [] => Ok []
  | kwargs :: rest =>
      outcome_bind (Machine_new kwargs) (fun m =>
      outcome_bind (machines_of rest) (fun ms => Ok (m :: ms)))
  end.

(** The call of [DatacenterRack] on keyword arguments (lines 101-105). *)
Definition DatacenterRack_new (kwargs : value) : outcome value :=
  outcome_bind (mapping kwargs) (fun kw =>
  outcome_bind
    (call_kwargs [("switch", Some VNone); ("machines", Some VNone)] kw) (fun args =>
  match args with
  | [switch; machines] =>
      outcome_bind (Switch_new switch) (fun s =>
      outcome_bind (iterate machines) (fun items =>
      outcome_bind (machines_of items) (fun ms =>
      Ok (VObj DatacenterRack [("switch", s); ("machines", VList ms)]))))
  | _ => Raise TypeError
  end)).

(** The call of [cls] on keyword arguments, for the classes that inherit
    [JsonMixin] and so have a [from_json] to make it. *)
Definition new (cls : class) (kwargs : value) : outcome value :=
  match cls with
  | DatacenterRack => DatacenterRack_new kwargs
  | Switch => Switch_new kwargs
  | Machine => Machine_new kwargs
  | _ => Raise AttributeError
  end.

(** [json.loads] and [json.dumps] belong to the standard library: the
    mix-in is embedded over any pair of them, on any representation [text]
    of JSON documents. *)
Section JsonMixin.

Variable text : Type.
Variable json_loads : text -> outcome value.
Variable json_dumps : value -> outcome text.

(** [cls.from_json(data)] (lines 89-92); a class outside [JsonMixin] has
    no such attribute. *)
Definition from_json (cls : class) (data : text) : outcome value :=
  if is_JsonMixin cls
  then outcome_bind (json_loads data) (fun kwargs => new cls kwargs)
  else Raise AttributeError.

(** [self.to_json()] (lines 94-95), an attribute of the instances of the
    classes that inherit [JsonMixin]. *)
Definition to_json (self : value) : outcome text :=
  match self with
  | VObj c _ =>
      if is_JsonMixin c
      then outcome_bind (to_dict self) (fun d => json_dumps d)
      else Raise AttributeError
  | _ => Raise AttributeError
  end.

End JsonMixin.

(** *** Parsed JSON *)

(** Python's [==] on two values of the kinds [json.loads] returns, decided
    on values of equal type: lists compare element by element, dicts compare
    as mappings, whatever the order of their keys.  (Python also equates an
    [int] with the [float] of the same value; this function does not, so it
    holds only where [==] does.) *)
Fixpoint value_eq (a b : value) {struct a} : bool :=
  match a, b with
  | VNone, VNone => true
  | VBool x, VBool y => Bool.eqb x y
  | VInt x, VInt y => x =? y
  | VFloat x, VFloat y => x =? y
  | VStr x, VStr y => String.eqb x y
  | VList xs, VList ys =>
      (fix elements (xs ys : list value) : bool :=
         match xs, ys with
         | [], [] => true
         | x :: xs', y :: ys' => value_eq x y && elements xs' ys'
         | _, _ => false
         end) xs ys
  | VDict d, VDict d' =>
      (fix items (d : list (string * value)) : bool :=
         match d with
         | [] => true
         | (k, v) :: rest =>
             match lookup_key k d' with
             | Some v' => value_eq v v'
             | None => false
             end && items rest
         end) d
      && forallb (fun kv => has_key (fst kv) d) d'
  | _, _ => false
  end.

Fixpoint distinct_keys (d : list (string * value)) : bool :=
  match d with
  | [] => true
  | (k, _) :: rest => negb (has_key k rest) && distinct_keys rest
  end.

(** The values [json.dumps] writes and [json.loads] gives back: no
    instances, and dicts that hold each key once. *)
Fixpoint jsonable (v : value) : bool :=
  match v with
  | VList l => forallb jsonable l
  | VDict d => distinct_keys d && forallb (fun kv => jsonable (snd kv)) d
  | VObj _ _ => false
  | _ => true
  end.

(** A JSON number parses to an [int] or a [float]. *)
Definition numeric (v : value) : bool :=
  match v with
  | VInt _ | VFloat _ => true
  | _ => false
  end.

Definition has_numeric (k : string) (d : list (string * value)) : bool :=
  match lookup_key k d with
  | Some v => numeric v
  | None => false
  end.

(** Every key of the dict is one of [names]. *)
Definition only_keys (names : list string) (d : list (string * value)) : bool :=
  forallb (fun kv => existsb (String.eqb (fst kv)) names) d.

(** An object with numeric ['ports'] and ['speed']. *)
Definition is_switch (v : value) : bool :=
  match v with
  | VDict d => has_numeric "ports" d && has_numeric "speed" d
  | _ => false
  end.

(** An object with numeric ['cores'], ['ram'] and ['disk']. *)
Definition is_machine (v : value) : bool :=
  match v with
  | VDict d => has_numeric "cores" d && has_numeric "ram" d && has_numeric "disk" d
  | _ => false
  end.

(** An object with key ['switch'] mapped to a switch object and key
    ['machines'] mapped to a list of machine objects. *)
Definition is_rack (v : value) : bool :=
  match v with
  | VDict d =>
      match lookup_key "switch" d, lookup_key "machines" d with
      | Some s, Some (VList ms) => is_switch s && forallb is_machine ms
      | _, _ => false
      end
  | _ => false
  end.

(** The same objects when they hold no other key. *)
Definition is_switch_only (v : value) : bool :=
  match v with
  | VDict d => is_switch v && only_keys ["ports"; "speed"] d
  | _ => false
  end.

Definition is_machine_only (v : value) : bool :=
  match v with
  | VDict d => is_machine v && only_keys ["cores"; "ram"; "disk"] d
  | _ => false
  end.

Definition is_rack_only (v : value) : bool :=
  match v with
  | VDict d =>
      only_keys ["switch"; "machines"] d &&
      match lookup_key "switch" d, lookup_key "machines" d with
      | Some s, Some (VList ms) => is_switch_only s && forallb is_machine_only ms
      | _, _ => false
      end
  | _ => false
  end.

(** What the development asks of the JSON library: a value it can write is
    read back as it was. *)
Definition reads_back (text : Type) (json_loads : text -> outcome value)
    (json_dumps : value -> outcome text) : Prop :=
  forall v, jsonable v = true ->
    exists s, json_dumps v = Ok s /\ json_loads s = Ok v.

(** The plainest library that does: a document is the value it denotes. *)
Definition plain_loads (data : value) : outcome value := Ok data.
Definition plain_dumps (v : value) : outcome value := Ok v.

(** The document of lines 118-125, parsed. *)
Definition serialized : value :=
  VDict [("switch", VDict [("ports", VInt 5); ("speed", VFloat 0x41CDCD6500000000)]);
         ("machines", VList [
            VDict [("cores", VInt 8); ("ram", VFloat 0x421DCD6500000000);
                   ("disk", VFloat 0x4292309CE5400000)];
            VDict [("cores", VInt 4); ("ram", VFloat 0x420DCD6500000000);
                   ("disk", VFloat 0x426D1A94A2000000)];
            VDict [("cores", VInt 2); ("ram", VFloat 0x41EDCD6500000000);
                   ("disk", VFloat 0x425D1A94A2000000)]])].

(** A rack document whose switch carries one key more. *)
Definition tagged_rack : value :=
  VDict [("switch", VDict [("ports", VInt 5); ("speed", VInt 1000); ("vlan", VInt 7)]);
         ("machines", VList [])].

End Item26.

(** ** More of item 30: what a call can do to the bucket *)

Module Item30More.
Import Item30.

(** What a call of [fill] or [deduct] can leave of the object [ob] it works
    on: nothing new (it raised, or [deduct] refused), the assignment of the
    quota made within the period, or, for a [fill] that finds the period
    expired, the chain of lines 20-22. *)
Inductive effect (o : op) (ob : object) : object -> Prop :=
| effect_none : effect o ob ob
| effect_assign v ob' :
    assigned o (obj_quota ob) = Some v ->
    obj_set_quota v ob = Ok ob' ->
    effect o ob ob'
| effect_expired amount ob1 ob2 ob' :
    o = Fill amount ->
    obj_set_quota 0 ob = Ok ob1 ->
    obj_set_reset_time (Int 0) ob1 = Ok ob2 ->
    obj_set_quota (obj_quota ob2 + amount) ob2 = Ok ob' ->
    effect o ob ob'.

(** The fields of a property bucket are not negative. *)
Definition fields_nonneg (ob : object) : Prop :=
  match ob with
  | Attr _ => False
  | Prop_ p => 0 <= max_quota p /\ 0 <= quota_consumed p
  end.

(** The quota of a plain bucket is not negative. *)
Definition quota_nonneg (ob : object) : Prop :=
  match ob with
  | Attr a => 0 <= a_quota a
  | Prop_ _ => False
  end.

(** The quota a call reported. *)
Definition obs_quota (x : obs) : Z :=
  match x with
  | Filled q => q
  | Deducted _ q => q
  end.

(** The amounts a script fills with are not negative. *)
Definition fills_nonneg (ops : list op) : bool :=
  forallb (fun o => match o with Fill amount => 0 <=? amount | Deduct _ => true end) ops.

(** A script of fills. *)
Definition fills (amounts : list Z) : list op := List.map Fill amounts.

Fixpoint total (amounts : list Z) : Z :=
  match amounts with
  | [] => 0
  | a :: rest => a + total rest
  end.

(** A clock that leaves the period after its second reading: the
    construction and the first call read [0], every later call reads one
    hour. *)
Definition late_env : Env :=
  {| clock := fun n => match n with O | 1%nat => 0 | _ => 3600000000 end;
     ticks := 0; files := fun _ => Raise (OSError "ENOENT"); stdout := [] |}.

(** A plain bucket and a property bucket of sixty seconds, filled with [100]
    in time, as the next call finds them: the period has expired. *)
Definition late_attr : World := snd (session Bucket_attr 60 [Fill 100] late_env).
Definition late_prop : World := snd (session Bucket_prop 60 [Fill 100] late_env).

(** A property bucket of sixty seconds filled with [100], on a clock that
    stands still. *)
Definition filled_prop : World := snd (session Bucket_prop 60 [Fill 100] frozen_env).

End Item30More.

(** ** More of item 24: building and reducing workers *)

Module Item24More.
Import Item24.

(** [a + b] on what [result] can hold: [None] has no addition. *)
Definition add (a b : pyval) : outcome pyval :=
  match a, b with
  | PInt x, PInt y => Ok (PInt (x + y))
  | _, _ => Raise TypeError
  end.

(** [reduce] (lines 31-32 and 40-41; lines 123-124 and 139-140):
    [self.result += other.result] reads both attributes, adds, and assigns
    the sum to [self.result]. *)
Definition reduce (self other : positive) : M unit :=
  let* s := load self in
  match cls s with
  | Worker => raise NotImplementedError
  | LineCountWorker =>
      let* o := load other in
      let* sum := lift (add (result s) (result o)) in
      store self {| cls := cls s; input_data := input_data s; result := sum |}
  end.

(** [create_workers] (lines 49-53): one [LineCountWorker] per input, in the
    order of the inputs. *)
Fixpoint create_workers (input_list : list InputData) : M (list positive) :=
  match input_list with
  | [] => ret []
  | input_data :: rest =>
      let* worker := Worker_init LineCountWorker input_data in
      let* workers := create_workers rest in
      ret (worker :: workers)
  end.

(** The loop of lines 62-63 of [execute], which runs after every thread has
    been joined: [first] reduces the other workers one by one. *)
Fixpoint reduce_rest (first : positive) (rest : list positive) : M unit :=
  match rest with
  | [] => ret tt
  | worker :: rest' => reduce first worker ;;; reduce_rest first rest'
  end.

Fixpoint sum_of (counts : list Z) : Z :=
  match counts with
  | [] => 0
  | y :: rest => y + sum_of rest
  end.

(** The worker the constructor builds for an input. *)
Definition fresh_worker (input : InputData) : worker :=
  {| cls := LineCountWorker; input_data := input; result := PNone |}.

(** Two workers that have counted: a store as [reduce] is meant to find
    it. *)
Definition counted (x y : Z) : World :=
  {| env := one_file_env "/tmp/a" two_lines;
     heap := <[2%positive := {| cls := LineCountWorker;
                                input_data := PathInputData "/tmp/b";
                                result := PInt y |}]>
             (<[1%positive := {| cls := LineCountWorker;
                                 input_data := PathInputData "/tmp/a";
                                 result := PInt x |}]> ∅) |}.

End Item24More.

(** ** More of item 26: what the traversal meets *)

Module Item26More.
Import Item26.

(** Plain data: [None], booleans, numbers, strings, and lists of plain
    data. *)
Fixpoint plain_data (v : value) : bool :=
  match v with
  | VList l => forallb plain_data l
  | VDict _ | VObj _ _ => false
  | _ => true
  end.

(** Values as a program builds them from the classes of the file: the
    [__dict__] of an instance holds each name once, and the [value] of a
    [BinaryTreeWithParent] is plain data. *)
Fixpoint tidy (v : value) : bool :=
  match v with
  | VList l => forallb tidy l
  | VObj c attrs =>
      distinct_keys attrs &&
      forallb (fun kv => tidy (snd kv)) attrs &&
      match c with
      | BinaryTreeWithParent =>
          match lookup_key "value" attrs with
          | Some x => plain_data x
          | None => false
          end
      | _ => true
      end
  | _ => true
  end.

(** The traversal of [v] by [self] under [key] comes upon a dict: [v] is
    one, or is a list with an element that leads to one, or is an instance,
    not cut off as a parent link, with an attribute that leads to one. *)
Inductive reaches_dict : class -> string -> value -> Prop :=
| reaches_here self key d :
    reaches_dict self key (VDict d)
| reaches_element self key l x :
    In x l ->
    reaches_dict self key x ->
    reaches_dict self key (VList l)
| reaches_attribute self key c attrs k x :
    is_parent_link self key (VObj c attrs) = false ->
    In (k, x) attrs ->
    reaches_dict (if is_ToDictMixin c then c else self) k x ->
    reaches_dict self key (VObj c attrs).

Definition has_plain (k : string) (d : list (string * value)) : bool :=
  match lookup_key k d with
  | Some v => plain_data v
  | None => false
  end.

(** An object with exactly the keys ['ports'] and ['speed'], and one with
    exactly the keys ['cores'], ['ram'] and ['disk'], all mapped to plain
    data. *)
Definition is_switch_plain (v : value) : bool :=
  match v with
  | VDict d =>
      only_keys ["ports"; "speed"] d && has_plain "ports" d && has_plain "speed" d
  | _ => false
  end.

Definition is_machine_plain (v : value) : bool :=
  match v with
  | VDict d =>
      only_keys ["cores"; "ram"; "disk"] d &&
      has_plain "cores" d && has_plain "ram" d && has_plain "disk" d
  | _ => false
  end.

(** The instances the constructors build. *)
Definition Switch_built (o : value) : Prop :=
  exists ports speed, o = VObj Switch [("ports", ports); ("speed", speed)].

Definition Machine_built (o : value) : Prop :=
  exists cores ram disk,
    o = VObj Machine [("cores", cores); ("ram", ram); ("disk", disk)].

(** A switch document with a label and a list of lanes. *)
Definition labelled_switch : value :=
  VDict [("speed", VStr "10G"); ("ports", VList [VInt 1; VInt 2; VNone])].

(** A switch whose [ports] attribute holds a dict. *)
Definition nested_switch : value :=
  VObj Switch [("ports", VList [VInt 1; VDict [("uplink", VInt 2)]]); ("speed", VInt 1)].

End Item26More.

(** * Properties *)

(** ** Computations *)

Lemma bind_ok {S A B : Type} (m : SE S A) (k : A -> SE S B) w a w' :
  m w = (Ok a, w') -> bind m k w = k a w'.
Proof. intros H. unfold bind. now rewrite H. Qed.

Lemma bind_raise {S A B : Type} (m : SE S A) (k : A -> SE S B) w e w' :
  m w = (Raise e, w') -> bind m k w = (Raise e, w').
Proof. intros H. unfold bind. now rewrite H. Qed.

(** A property of the state that holds across [m] and across every
    continuation holds across the sequence, when it composes. *)
Lemma bind_across {S A B : Type} (P : S -> S -> Prop)
    (m : SE S A) (k : A -> SE S B) :
  (forall w1 w2 w3, P w1 w2 -> P w2 w3 -> P w1 w3) ->
  (forall w, P w (snd (m w))) ->
  (forall a w, P w (snd (k a w))) ->
  forall w, P w (snd (bind m k w)).
Proof.
  intros Htrans Hm Hk w. unfold bind.
  specialize (Hm w). destruct (m w) as [[a | e] w']; simpl in *.
  - eapply Htrans; [exact Hm | apply Hk].
  - exact Hm.
Qed.

Module Item30Facts.
Import Item30.

(** *** The frame of the bucket operations *)

Lemma same_class_refl o : same_class o o.
Proof. now destruct o. Qed.

Lemma same_class_trans o1 o2 o3 :
  same_class o1 o2 -> same_class o2 o3 -> same_class o1 o3.
Proof. now destruct o1, o2, o3. Qed.

Lemma frame_refl l w : frame l w w.
Proof.
  constructor; auto.
  intros o Ho. exists o. split; [exact Ho | apply same_class_refl].
Qed.

Lemma frame_trans l w1 w2 w3 : frame l w1 w2 -> frame l w2 w3 -> frame l w1 w3.
Proof.
  intros [F1 O1 C1 H1 D1 K1] [F2 O2 C2 H2 D2 K2]. constructor.
  - congruence.
  - congruence.
  - congruence.
  - intros l' Hl'. rewrite H2, H1; auto.
  - congruence.
  - intros o Ho. destruct (K1 o Ho) as (o' & Ho' & Hc).
    destruct (K2 o' Ho') as (o'' & Ho'' & Hc').
    exists o''. split; [exact Ho'' | eapply same_class_trans; eauto].
Qed.

Lemma frame_bind {A B : Type} l (m : M A) (k : A -> M B) :
  (forall w, frame l w (snd (m w))) ->
  (forall a w, frame l w (snd (k a w))) ->
  forall w, frame l w (snd (bind m k w)).
Proof. apply bind_across. apply frame_trans. Qed.

Lemma frame_ret {A : Type} l (a : A) w : frame l w (snd (ret a w)).
Proof. apply frame_refl. Qed.

Lemma frame_lift {A : Type} l (r : outcome A) w : frame l w (snd (lift r w)).
Proof. apply frame_refl. Qed.

Lemma frame_now l w : frame l w (snd (datetime_now w)).
Proof.
  constructor; auto.
  intros o Ho. exists o. split; [exact Ho | apply same_class_refl].
Qed.

Lemma frame_load l w : frame l w (snd (load l w)).
Proof. unfold load. destruct (heap w !! l); apply frame_refl. Qed.

Lemma frame_getattr {A : Type} (f : object -> A) l w :
  frame l w (snd (getattr f l w)).
Proof.
  unfold getattr. apply frame_bind.
  - apply frame_load.
  - intros; apply frame_ret.
Qed.

Lemma frame_setattr f l w :
  (forall o o', f o = Ok o' -> same_class o o') ->
  frame l w (snd (setattr f l w)).
Proof.
  intros Hf. unfold setattr, bind, load, lift, store.
  destruct (heap w !! l) as [o |] eqn:Hl; simpl; [| apply frame_refl].
  destruct (f o) as [o' | e] eqn:Hfo; simpl; [| apply frame_refl].
  constructor; simpl; auto.
  - intros l' Hl'. now rewrite lookup_insert_ne.
  - rewrite dom_insert_L. apply elem_of_dom_2 in Hl.
    apply subseteq_union_1_L. now apply singleton_subseteq_l.
  - intros o0 Ho0. exists o'. rewrite lookup_insert_eq. split; [reflexivity |].
    assert (o0 = o) by congruence. subst o0. now apply Hf.
Qed.

Lemma obj_set_quota_class v o o' : obj_set_quota v o = Ok o' -> same_class o o'.
Proof.
  destruct o as [b | b]; simpl.
  - intros [= <-]. exact I.
  - destruct (quota_setter b v); simpl; [intros [= <-]; exact I | discriminate].
Qed.

Lemma obj_set_reset_time_class v o o' :
  obj_set_reset_time v o = Ok o' -> same_class o o'.
Proof. destruct o; simpl; intros [= <-]; exact I. Qed.

Lemma frame_set_quota v l w : frame l w (snd (setattr (obj_set_quota v) l w)).
Proof. apply frame_setattr, obj_set_quota_class. Qed.

Lemma frame_set_reset_time v l w :
  frame l w (snd (setattr (obj_set_reset_time v) l w)).
Proof. apply frame_setattr, obj_set_reset_time_class. Qed.

Create HintDb frame.
#[local] Hint Resolve frame_ret frame_lift frame_now frame_getattr
  frame_set_quota frame_set_reset_time : frame.

Ltac frame_steps :=
  repeat first
    [ solve [auto with frame]
    | match goal with |- context [if ?c then _ else _] => destruct c end
    | apply frame_bind; [intros | intros ?; intros] ].

Lemma frame_fill l amount w : frame l w (snd (fill l amount w)).
Proof. revert w. unfold fill. frame_steps. Qed.

Lemma frame_deduct l amount w : frame l w (snd (deduct l amount w)).
Proof. revert w. unfold deduct. frame_steps. Qed.

(** C9.  The quota-bucket example has no persistence: [fill], [deduct] and
    the [quota] property setter (an assignment [bucket.quota = amount]) change
    nothing but the attributes of the bucket object passed to them.  From any
    state of the process, each of the three leaves the files and the standard
    output as they were, only reads the clock, leaves every other object as
    it was, creates and deletes no object, and keeps the class of the
    bucket. *)
Theorem bucket_ops_frame (bucket : positive) (amount : Z) (w : World) :
  frame bucket w (snd (fill bucket amount w)) /\
  frame bucket w (snd (deduct bucket amount w)) /\
  frame bucket w (snd (setattr (obj_set_quota amount) bucket w)).
Proof.
  split; [apply frame_fill | split; [apply frame_deduct | apply frame_set_quota]].
Qed.

(** *** Calls within the period *)

Lemma getattr_eq {A : Type} (f : object -> A) l w o :
  heap w !! l = Some o -> getattr f l w = (Ok (f o), w).
Proof. intros Hl. unfold getattr, bind, load, ret. now rewrite Hl. Qed.

Lemma setattr_eq f l w o :
  heap w !! l = Some o ->
  setattr f l w =
    match f o with
    | Ok o' => (Ok tt, {| env := env w; heap := <[l := o']> (heap w) |})
    | Raise e => (Raise e, w)
    end.
Proof.
  intros Hl. unfold setattr, bind, load, lift, store. rewrite Hl.
  now destruct (f o).
Qed.

(** One statement of the body, evaluated: the clock reading, an attribute
    read through a reference known to hold [Hl], or a pure step. *)
Ltac eval_bind Hl :=
  erewrite bind_ok; [| first [ apply getattr_eq; exact Hl | reflexivity ] ].

Lemma fill_in_period l amount w ob t0 :
  heap w !! l = Some ob ->
  obj_reset_time ob = Datetime t0 ->
  clock (env w) (ticks (env w)) - t0 <= obj_period_delta ob ->
  fill l amount w =
    match obj_set_quota (obj_quota ob + amount) ob with
    | Ok ob' => (Ok tt, {| env := tick (env w); heap := <[l := ob']> (heap w) |})
    | Raise e => (Raise e, {| env := tick (env w); heap := heap w |})
    end.
Proof.
  intros Hl Ht Hin.
  assert (Hgt : (clock (env w) (ticks (env w)) - t0 >? obj_period_delta ob) = false)
    by (rewrite Z.gtb_ltb; apply Z.ltb_ge; lia).
  unfold fill.
  eval_bind Hl. eval_bind Hl. rewrite Ht. eval_bind Hl. eval_bind Hl.
  rewrite Hgt. eval_bind Hl. eval_bind Hl.
  rewrite (setattr_eq _ _ _ ob) by exact Hl.
  reflexivity.
Qed.

Lemma deduct_in_period l amount w ob t0 :
  heap w !! l = Some ob ->
  obj_reset_time ob = Datetime t0 ->
  clock (env w) (ticks (env w)) - t0 <= obj_period_delta ob ->
  deduct l amount w =
    if obj_quota ob - amount <? 0
    then (Ok false, {| env := tick (env w); heap := heap w |})
    else
      match obj_set_quota (obj_quota ob - amount) ob with
      | Ok ob' => (Ok true, {| env := tick (env w); heap := <[l := ob']> (heap w) |})
      | Raise e => (Raise e, {| env := tick (env w); heap := heap w |})
      end.
Proof.
  intros Hl Ht Hin.
  assert (Hgt : (clock (env w) (ticks (env w)) - t0 >? obj_period_delta ob) = false)
    by (rewrite Z.gtb_ltb; apply Z.ltb_ge; lia).
  unfold deduct.
  eval_bind Hl. eval_bind Hl. rewrite Ht. eval_bind Hl. eval_bind Hl.
  rewrite Hgt. eval_bind Hl.
  destruct (obj_quota ob - amount <? 0); [reflexivity |].
  eval_bind Hl. unfold bind at 1.
  rewrite (setattr_eq _ _ _ ob) by exact Hl.
  now destruct (obj_set_quota (obj_quota ob - amount) ob).
Qed.

Lemma perform_in_period l o w ob t0 :
  heap w !! l = Some ob ->
  obj_reset_time ob = Datetime t0 ->
  clock (env w) (ticks (env w)) - t0 <= obj_period_delta ob ->
  perform l o w =
    match obj_perform o ob with
    | Ok (x, ob') => (Ok x, {| env := tick (env w); heap := <[l := ob']> (heap w) |})
    | Raise e => (Raise e, {| env := tick (env w); heap := heap w |})
    end.
Proof.
  intros Hl Ht Hin. destruct o as [amount | amount]; unfold perform, obj_perform.
  - unfold bind at 1. rewrite (fill_in_period _ _ _ ob t0) by assumption.
    destruct (obj_set_quota (obj_quota ob + amount) ob) as [ob' | e]; simpl;
      [| reflexivity].
    erewrite bind_ok; [reflexivity |].
    apply getattr_eq. simpl. apply lookup_insert_eq.
  - unfold bind at 1. rewrite (deduct_in_period _ _ _ ob t0) by assumption.
    destruct (obj_quota ob - amount <? 0); simpl.
    + erewrite bind_ok; [| apply getattr_eq; exact Hl].
      unfold ret. simpl. now rewrite insert_id.
    + destruct (obj_set_quota (obj_quota ob - amount) ob) as [ob' | e]; simpl;
        [| reflexivity].
      erewrite bind_ok; [reflexivity |].
      apply getattr_eq. simpl. apply lookup_insert_eq.
Qed.

(** The script of the source on both classes, with the states it prints
    (lines 38, 47 and 56; lines 108-113). *)
Example source_script_attr :
  fst (session Bucket_attr 60 [Fill 100; Deduct 99; Deduct 3] frozen_env) =
    [Ok (Filled 100); Ok (Deducted true 1); Ok (Deducted false 1)].
Proof. vm_compute. reflexivity. Qed.

Example source_script_prop :
  fst (session Bucket_prop 60 [Fill 100; Deduct 99; Deduct 3] frozen_env) =
    [Ok (Filled 100); Ok (Deducted true 1); Ok (Deducted false 1)] /\
  heap (snd (session Bucket_prop 60 [Fill 100; Deduct 99; Deduct 3] frozen_env))
    !! 1%positive =
    Some (Prop_ {| period_delta := 60000000; reset_time := Datetime 0;
                   max_quota := 100; quota_consumed := 99 |}).
Proof. split; vm_compute; reflexivity. Qed.

(** Two deductions in a row: the setter adds to [quota_consumed] the
    distance from [max_quota], which already contains the first one. *)
Example deduct_twice :
  fst (session Bucket_attr 60 [Fill 100; Deduct 10; Deduct 10] frozen_env) =
    [Ok (Filled 100); Ok (Deducted true 90); Ok (Deducted true 80)] /\
  fst (session Bucket_prop 60 [Fill 100; Deduct 10; Deduct 10] frozen_env) =
    [Ok (Filled 100); Ok (Deducted true 90); Ok (Deducted true 70)].
Proof. split; vm_compute; reflexivity. Qed.

(** *** The property setter against the plain attribute *)

(** Assigning [n] through the setter leaves a bucket that reports [n] when
    [n] is [0] or nothing is consumed yet. *)
Lemma quota_setter_calm p n :
  0 <= max_quota p ->
  n = 0 \/ quota_consumed p = 0 ->
  exists p',
    quota_setter p n = Ok p' /\ quota_getter p' = n /\
    reset_time p' = reset_time p /\ period_delta p' = period_delta p /\
    0 <= max_quota p'.
Proof.
  intros Hmax Hcalm. unfold quota_setter.
  destruct (Z.eqb_spec n 0) as [-> | Hn].
  - eexists. split; [reflexivity |]. unfold quota_getter. simpl.
      repeat split; lia.
  - destruct Hcalm as [? | Hc]; [contradiction |]. rewrite Hc. simpl.
    destruct (Z.ltb_spec (max_quota p - n) 0).
    + eexists. split; [reflexivity |]. unfold quota_getter. simpl.
      repeat split; lia.
    + destruct (Z.geb_spec (max_quota p) 0); [| lia].
      eexists. split; [reflexivity |]. unfold quota_getter. simpl.
      repeat split; lia.
Qed.

(** Outside these two cases the setter raises or reports another quota: the
    condition of [quota_setter_calm] is the weakest one. *)
Lemma quota_setter_restless p n p' :
  n <> 0 -> quota_consumed p <> 0 ->
  quota_setter p n = Ok p' -> quota_getter p' <> n.
Proof.
  intros Hn Hc. unfold quota_setter.
  destruct (Z.eqb_spec n 0); [contradiction |].
  destruct (Z.eqb_spec (quota_consumed p) 0); [contradiction |].
  destruct (max_quota p - n <? 0); [discriminate |].
  destruct (max_quota p >=? quota_consumed p); [| discriminate].
  intros [= <-]. unfold quota_getter. simpl. lia.
Qed.

Lemma calm_call_assigned o p n :
  calm_call o (Prop_ p) = true ->
  assigned o (quota_getter p) = Some n ->
  n = 0 \/ quota_consumed p = 0.
Proof.
  unfold calm_call. intros H Ha. rewrite Ha in H.
  apply orb_true_iff in H. destruct H as [H | H]; apply Z.eqb_eq in H; auto.
Qed.

(** One calm call on twins: both return the same observation and stay
    twins. *)
Lemma twins_step l o w1 w2 p :
  twins l w1 w2 ->
  heap w2 !! l = Some (Prop_ p) ->
  calm_call o (Prop_ p) = true ->
  exists x w1' w2',
    perform l o w1 = (Ok x, w1') /\
    perform l o w2 = (Ok x, w2') /\
    twins l w1' w2'.
Proof.
  intros (Henv & a & p0 & t0 & H1 & H2 & Ht1 & Ht2 & Hpd & Hq & Hmax & Hin) Hp Hcalm.
  assert (p0 = p) by congruence. subst p0.
  assert (Hnow : clock (env w1) (ticks (env w1)) - t0 <= a_period_delta a)
    by (apply Hin; lia).
  assert (Hlater : forall n, (S (ticks (env w1)) <= n)%nat ->
            clock (env w1) n - t0 <= a_period_delta a)
    by (intros n Hn; apply Hin; lia).
  rewrite (perform_in_period l o w1 (Attr a) t0) by assumption.
  rewrite (perform_in_period l o w2 (Prop_ p) t0)
    by (simpl; try assumption; rewrite <- Henv, <- Hpd; assumption).
  rewrite <- Henv.
  destruct o as [amount | amount]; simpl.
  - destruct (quota_setter_calm p (quota_getter p + amount) Hmax)
      as (p' & Hset & Hget & Hrt & Hpd' & Hmax').
    { apply (calm_call_assigned (Fill amount)); [exact Hcalm | reflexivity]. }
    rewrite Hq, Hset. simpl. rewrite Hget.
    do 3 eexists. split; [reflexivity |]. split; [reflexivity |].
    split; [reflexivity |].
    eexists _, p', t0. simpl. rewrite !lookup_insert_eq.
    split; [reflexivity |]. simpl. repeat split; try congruence; assumption.
  - rewrite Hq. destruct (quota_getter p - amount <? 0) eqn:Hlow; simpl.
    + do 3 eexists. split; [reflexivity |]. split; [reflexivity |].
      split; [reflexivity |].
      exists a, p, t0. simpl. rewrite !lookup_insert_eq.
      repeat split; try congruence; assumption.
    + destruct (quota_setter_calm p (quota_getter p - amount) Hmax)
        as (p' & Hset & Hget & Hrt & Hpd' & Hmax').
      { apply (calm_call_assigned (Deduct amount)); [exact Hcalm |].
        simpl. now rewrite Hlow. }
      rewrite Hset. simpl. rewrite Hget.
      do 3 eexists. split; [reflexivity |]. split; [reflexivity |].
      split; [reflexivity |].
      eexists _, p', t0. simpl. rewrite !lookup_insert_eq.
      split; [reflexivity |]. simpl. repeat split; try congruence; assumption.
Qed.

(** A calm script on twins: the same observations, call by call. *)
Lemma twins_run l ops : forall w1 w2,
  twins l w1 w2 ->
  calm l ops w2 = true ->
  fst (run l ops w1) = fst (run l ops w2).
Proof.
  induction ops as [| o ops IH]; intros w1 w2 Htw Hcalm; [reflexivity |].
  simpl in Hcalm. apply andb_true_iff in Hcalm. destruct Hcalm as [Hcall Hrest].
  pose proof Htw as (_ & a & p & t0 & _ & Hp & _).
  rewrite Hp in Hcall.
  destruct (twins_step l o w1 w2 p Htw Hp Hcall) as (x & w1' & w2' & E1 & E2 & Htw').
  simpl. rewrite E1, E2. rewrite E2 in Hrest. simpl in Hrest.
  specialize (IH w1' w2' Htw' Hrest).
  destruct (run l ops w1'), (run l ops w2'). simpl in *. now rewrite IH.
Qed.

(** The two constructors, run in the same fresh process, build twins at the
    same location. *)
Lemma constructors_twins period e :
  single_period e period ->
  exists l w1 w2,
    Bucket_attr period (boot e) = (Ok l, w1) /\
    Bucket_prop period (boot e) = (Ok l, w2) /\
    twins l w1 w2.
Proof.
  intros Hper. do 3 eexists. split; [reflexivity |]. split; [reflexivity |].
  split; [reflexivity |].
  do 3 eexists. simpl. rewrite !lookup_insert_eq.
  repeat split; try reflexivity; try lia.
  intros n Hn. apply Hper. lia.
Qed.

(** Where the two classes do agree.  Take a script of [fill] and [deduct]
    calls run within a single quota period on a fresh plain-attribute bucket
    and on a fresh property bucket of the same period.  If every call that
    assigns the quota either assigns [0] or finds the property bucket with
    [quota_consumed = 0], the two buckets report the same quota after every
    call and every [deduct] returns the same boolean for both. *)
Theorem calm_sessions_agree (period : Z) (ops : list op) (e : Env) :
  single_period e period ->
  calm_session period ops e = true ->
  fst (session Bucket_attr period ops e) = fst (session Bucket_prop period ops e).
Proof.
  intros Hper Hcalm.
  destruct (constructors_twins period e Hper) as (l & w1 & w2 & E1 & E2 & Htw).
  unfold session, calm_session in *. rewrite E2 in Hcalm. rewrite E1, E2.
  now apply twins_run.
Qed.

Lemma frozen_single_period period : 0 <= period -> single_period frozen_env period.
Proof. intros Hp n _. unfold timedelta. simpl. lia. Qed.

(** The script of the source (lines 91-106) is calm, so the theorem applies
    to it. *)
Lemma calm_sessions_agree_witness :
  fst (session Bucket_attr 60 [Fill 100; Deduct 99; Deduct 3] frozen_env) =
  fst (session Bucket_prop 60 [Fill 100; Deduct 99; Deduct 3] frozen_env).
Proof.
  apply (calm_sessions_agree 60 [Fill 100; Deduct 99; Deduct 3] frozen_env).
  - apply frozen_single_period. lia.
  - vm_compute. reflexivity.
Defined.

(** After a deduction a refill that goes beyond [max_quota] is refused by
    the assertion of the setter, while the plain bucket takes it. *)
Lemma refill_after_deduct_differs :
  single_period frozen_env 60 /\
  fst (session Bucket_attr 60 [Fill 100; Deduct 10; Fill 50] frozen_env) =
    [Ok (Filled 100); Ok (Deducted true 90); Ok (Filled 140)] /\
  fst (session Bucket_prop 60 [Fill 100; Deduct 10; Fill 50] frozen_env) =
    [Ok (Filled 100); Ok (Deducted true 90); Raise AssertionError] /\
  fst (session Bucket_attr 60 [Fill 100; Deduct 10; Fill 50] frozen_env) <>
  fst (session Bucket_prop 60 [Fill 100; Deduct 10; Fill 50] frozen_env).
Proof.
  split; [apply frozen_single_period; lia |].
  split; [vm_compute; reflexivity |].
  split; [vm_compute; reflexivity |].
  vm_compute. discriminate.
Qed.

(** C1.  The refactoring is meant to be transparent to the code that uses
    [fill] and [deduct] (line 115), and it is not: within a single period, on
    fresh buckets of the same period given the same calls, a second
    deduction is counted twice by the setter (line 89 adds [max_quota -
    amount], which already contains what was consumed, to [quota_consumed]).
    After [fill 100; deduct 10; deduct 10] the plain bucket reports [80] and
    the property bucket [70], with [quota_consumed = 30]; after
    [fill 100; deduct 10; deduct 0] the plain bucket reports [90] and the
    property bucket [80]: a deduction of nothing consumes ten.  Every call
    returns, and every [deduct] returns [True], on both classes. *)
Theorem second_deduct_counted_twice :
  single_period frozen_env 60 /\
  fst (session Bucket_attr 60 [Fill 100; Deduct 10; Deduct 10] frozen_env) =
    [Ok (Filled 100); Ok (Deducted true 90); Ok (Deducted true 80)] /\
  fst (session Bucket_prop 60 [Fill 100; Deduct 10; Deduct 10] frozen_env) =
    [Ok (Filled 100); Ok (Deducted true 90); Ok (Deducted true 70)] /\
  heap (snd (session Bucket_prop 60 [Fill 100; Deduct 10; Deduct 10] frozen_env))
    !! 1%positive =
    Some (Prop_ {| period_delta := 60000000; reset_time := Datetime 0;
                   max_quota := 100; quota_consumed := 30 |}) /\
  fst (session Bucket_attr 60 [Fill 100; Deduct 10; Deduct 0] frozen_env) =
    [Ok (Filled 100); Ok (Deducted true 90); Ok (Deducted true 90)] /\
  fst (session Bucket_prop 60 [Fill 100; Deduct 10; Deduct 0] frozen_env) =
    [Ok (Filled 100); Ok (Deducted true 90); Ok (Deducted true 80)].
Proof.
  split; [apply frozen_single_period; lia |].
  repeat split; vm_compute; reflexivity.
Qed.

(** C4.  The property bucket keeps no invariant between its fields.  A
    fresh bucket satisfies both [quota_consumed <= max_quota] and
    [0 <= quota]; yet within one period a script of [fill] and [deduct] calls
    with non-negative amounts, all of which return, leaves the bucket with
    [quota_consumed > max_quota] and [quota < 0]: neither predicate is
    preserved by every sequence of calls. *)
Theorem quota_predicates_not_preserved :
  (forall period e, exists l w b,
     Bucket_prop period (boot e) = (Ok l, w) /\
     heap w !! l = Some (Prop_ b) /\
     quota_consumed b <= max_quota b /\ 0 <= quota_getter b) /\
  (exists period e ops l w b,
     single_period e period /\
     Bucket_prop period (boot e) = (Ok l, w) /\
     Forall returned (fst (run l ops w)) /\
     length (fst (run l ops w)) = length ops /\
     heap (snd (run l ops w)) !! l = Some (Prop_ b) /\
     max_quota b < quota_consumed b /\ quota_getter b < 0).
Proof.
  split.
  - intros period e. do 3 eexists. split; [reflexivity |].
    split; [apply lookup_insert_eq |]. unfold quota_getter. simpl. lia.
  - exists 60, frozen_env, [Fill 100; Deduct 40; Deduct 40].
    do 2 eexists.
    exists {| period_delta := timedelta 60; reset_time := Datetime 0;
              max_quota := 100; quota_consumed := 120 |}.
    split; [apply frozen_single_period; lia |].
    split; [reflexivity |].
    split; [vm_compute; repeat constructor |].
    split; [vm_compute; reflexivity |].
    split; [vm_compute; reflexivity |].
    unfold quota_getter. simpl. lia.
Qed.

(** *** The bucket operations and the file system *)

Lemma blind_ret {A : Type} (a : A) : blind (ret a).
Proof. intros f w. reflexivity. Qed.

Lemma blind_lift {A : Type} (r : outcome A) : blind (lift r).
Proof. intros f w. reflexivity. Qed.

Lemma blind_now : blind datetime_now.
Proof. intros f w. reflexivity. Qed.

Lemma blind_load l : blind (load l).
Proof. intros f w. unfold load. simpl. now destruct (heap w !! l). Qed.

Lemma blind_store l o : blind (store l o).
Proof. intros f w. reflexivity. Qed.

Lemma blind_bind {A B : Type} (m : M A) (k : A -> M B) :
  blind m -> (forall a, blind (k a)) -> blind (bind m k).
Proof.
  intros Hm Hk f w. unfold bind. rewrite Hm.
  destruct (m w) as [[a | e] w']; simpl; [apply Hk | reflexivity].
Qed.

Lemma blind_getattr {A : Type} (g : object -> A) l : blind (getattr g l).
Proof. apply blind_bind; [apply blind_load | intros; apply blind_ret]. Qed.

Lemma blind_setattr g l : blind (setattr g l).
Proof.
  apply blind_bind; [apply blind_load | intros o].
  apply blind_bind; [apply blind_lift | intros; apply blind_store].
Qed.

Create HintDb blind.
#[local] Hint Resolve blind_ret blind_lift blind_now blind_getattr
  blind_setattr : blind.

Ltac blind_steps :=
  repeat first
    [ solve [auto with blind]
    | match goal with |- context [if ?c then _ else _] => destruct c end
    | apply blind_bind; [| intros ?] ].

Lemma blind_fill l amount : blind (fill l amount).
Proof. unfold fill. blind_steps. Qed.

Lemma blind_deduct l amount : blind (deduct l amount).
Proof. unfold deduct. blind_steps. Qed.

End Item30Facts.

Module Item24Facts.
Import Item24.

Lemma read_state d w : snd (read d w) = w.
Proof. now destruct d. Qed.

Lemma map_eq self w o :
  heap w !! self = Some o ->
  cls o = LineCountWorker ->
  map self w =
    (outcome_bind (fst (read (input_data o) w)) (fun _ => Ok tt), w).
Proof.
  intros Hl Hc. unfold map, bind, load. rewrite Hl, Hc.
  pose proof (read_state (input_data o) w) as Hs.
  destruct (read (input_data o) w) as [[data | e] w']; simpl in *; now subst.
Qed.

(** C6.  [LineCountWorker.map] counts the newlines into a local variable and
    assigns nothing: whatever the call does (return or raise), it leaves the
    whole state as it was, so the worker is the same object with the same
    [result]; the call returns whenever [read] does; and the [result] of a
    worker fresh from the constructor is [None]. *)
Theorem map_keeps_result (self : positive) (w : World) (o : worker) :
  heap w !! self = Some o ->
  cls o = LineCountWorker ->
  snd (map self w) = w /\
  (exists o', heap (snd (map self w)) !! self = Some o' /\ result o' = result o) /\
  (forall data, fst (read (input_data o) w) = Ok data -> fst (map self w) = Ok tt) /\
  (forall c input w0, exists l w1 o1,
     Worker_init c input w0 = (Ok l, w1) /\
     heap w1 !! l = Some o1 /\ result o1 = PNone).
Proof.
  intros Hl Hc. rewrite (map_eq self w o Hl Hc). simpl.
  split; [reflexivity |].
  split; [exists o; auto |].
  split; [intros data ->; reflexivity |].
  intros c input w0. do 3 eexists. split; [reflexivity |].
  split; [apply lookup_insert_eq | reflexivity].
Qed.

(** A worker built by the constructor over a two-line file: [map] returns
    and [result] is still [None]. *)
Lemma map_keeps_result_witness :
  let w := snd (Worker_init LineCountWorker (PathInputData "/tmp/a")
                  (boot (one_file_env "/tmp/a" two_lines))) in
  fst (map 1%positive w) = Ok tt /\
  exists o', heap (snd (map 1%positive w)) !! 1%positive = Some o' /\
             result o' = PNone.
Proof.
  intros w.
  destruct (map_keeps_result 1%positive w
              {| cls := LineCountWorker; input_data := PathInputData "/tmp/a";
                 result := PNone |})
    as (_ & Hres & Hret & _).
  - vm_compute. reflexivity.
  - reflexivity.
  - split; [apply (Hret two_lines); vm_compute; reflexivity | exact Hres].
Defined.

End Item24Facts.

Module Item26Facts.
Import Item26.

(** *** The traversal, clause by clause *)

Lemma traverse_numeric self key v : numeric v = true -> _traverse self key v = Ok v.
Proof. destruct v; try discriminate; destruct self; reflexivity. Qed.

Lemma traverse_obj self key c attrs :
  is_parent_link self key (VObj c attrs) = false ->
  _traverse self key (VObj c attrs) =
    outcome_bind (_traverse_dict (if is_ToDictMixin c then c else self) attrs)
      (fun d => Ok (VDict d)).
Proof.
  intros Hlink. simpl. rewrite Hlink.
  assert (Hitems : forall self' (l : list (string * value)),
    (fix items (instance_dict : list (string * value))
       : outcome (list (string * value)) :=
       match instance_dict with
       | [] => Ok []
       | (k, x) :: rest =>
           outcome_bind (_traverse self' k x) (fun x' =>
           outcome_bind (items rest) (fun rest' => Ok ((k, x') :: rest')))
       end) l = _traverse_dict self' l).
  { intros self' l. induction l as [| [k x] rest IH]; [reflexivity |].
    simpl. now rewrite IH. }
  rewrite !Hitems. now destruct (is_ToDictMixin c).
Qed.

Lemma traverse_list self key l :
  _traverse self key (VList l) =
    outcome_bind (_traverse_list self key l) (fun l' => Ok (VList l')).
Proof.
  assert (Hlink : is_parent_link self key (VList l) = false) by now destruct self.
  simpl. rewrite Hlink. f_equal.
  induction l as [| i rest IH]; [reflexivity |].
  simpl. now rewrite IH.
Qed.

Lemma value_eq_numeric v : numeric v = true -> value_eq v v = true.
Proof. destruct v; try discriminate; intros _; simpl; apply Z.eqb_refl. Qed.

Lemma jsonable_numeric v : numeric v = true -> jsonable v = true.
Proof. now destruct v. Qed.

Lemma value_eq_cons x xs y ys :
  value_eq (VList (x :: xs)) (VList (y :: ys)) =
  value_eq x y && value_eq (VList xs) (VList ys).
Proof. reflexivity. Qed.

Lemma has_key_existsb k d :
  has_key k d = existsb (String.eqb k) (List.map fst d).
Proof.
  unfold has_key. induction d as [| [k' v] rest IH]; [reflexivity |].
  simpl. destruct (String.eqb k k'); [reflexivity | exact IH].
Qed.

(** The keys of a dict that holds only [names] are keys of any dict that
    holds all of [names]. *)
Lemma only_keys_has_key (d' d : list (string * value)) :
  only_keys (List.map fst d') d = true ->
  forallb (fun kv => has_key (fst kv) d') d = true.
Proof.
  unfold only_keys. intros H. rewrite forallb_forall in *.
  intros kv Hin. rewrite has_key_existsb. now apply H.
Qed.

Lemma has_numeric_lookup k d :
  has_numeric k d = true -> exists v, lookup_key k d = Some v /\ numeric v = true.
Proof.
  unfold has_numeric. destruct (lookup_key k d) as [v |]; [eauto | discriminate].
Qed.

(** The dicts the source prints for its two trees (lines 45-47 and 69-72). *)
Example tree_to_dict :
  to_dict tree =
    Ok (VDict [("value", VInt 10);
               ("left", VDict [("value", VInt 7); ("left", VNone);
                               ("right", VDict [("value", VInt 9); ("left", VNone);
                                                ("right", VNone)])]);
               ("right", VDict [("value", VInt 13);
                                ("left", VDict [("value", VInt 11); ("left", VNone);
                                                ("right", VNone)]);
                                ("right", VNone)])]).
Proof. reflexivity. Qed.

Example root_to_dict :
  to_dict root =
    Ok (VDict [("value", VInt 10);
               ("left", VDict [("value", VInt 7); ("left", VNone);
                               ("right", VDict [("value", VInt 9); ("left", VNone);
                                                ("right", VNone); ("parent", VInt 7)]);
                               ("parent", VInt 10)]);
               ("right", VNone); ("parent", VNone)]).
Proof. reflexivity. Qed.

(** A dict held by an instance stops the traversal: the call of line 25
    passes one argument where two are required. *)
Example dict_attribute_raises :
  to_dict (VObj Switch [("ports", VDict [("uplink", VInt 2)]); ("speed", VInt 1)])
  = Raise TypeError.
Proof. reflexivity. Qed.

(** *** From keyword arguments to the object and back to a dict *)

Lemma call_kwargs_only params kw :
  only_keys (List.map fst params) kw = true ->
  call_kwargs params kw = bind_params params kw.
Proof. unfold call_kwargs, only_keys. now intros ->. Qed.

(** A switch object that holds only its two keys builds a [Switch], whose
    traversal under any key of any mix-in instance gives a dict equal to the
    argument. *)
Lemma switch_there_and_back self key v :
  is_switch_only v = true ->
  exists o d,
    Switch_new v = Ok o /\
    _traverse self key o = Ok d /\
    value_eq d v = true /\ jsonable d = true.
Proof.
  destruct v as [| | | | | | kw |]; try discriminate. simpl.
  intros H. apply andb_true_iff in H. destruct H as [H Honly].
  apply andb_true_iff in H. destruct H as [Hp Hs].
  destruct (has_numeric_lookup _ _ Hp) as (p & Lp & Np).
  destruct (has_numeric_lookup _ _ Hs) as (sp & Ls & Ns).
  exists (VObj Switch [("ports", p); ("speed", sp)]),
         (VDict [("ports", p); ("speed", sp)]).
  split.
  { unfold Switch_new, mapping, outcome_bind at 1.
    rewrite call_kwargs_only by exact Honly.
    simpl. now rewrite Lp, Ls. }
  split.
  { rewrite traverse_obj by now destruct self.
    simpl. now rewrite !traverse_numeric. }
  split.
  { simpl. rewrite Lp, Ls, !value_eq_numeric by assumption. simpl.
    apply (only_keys_has_key [("ports", p); ("speed", sp)]). exact Honly. }
  simpl. now rewrite !jsonable_numeric.
Qed.

Lemma machine_there_and_back self key v :
  is_machine_only v = true ->
  exists o d,
    Machine_new v = Ok o /\
    _traverse self key o = Ok d /\
    value_eq d v = true /\ jsonable d = true.
Proof.
  destruct v as [| | | | | | kw |]; try discriminate. simpl.
  intros H. apply andb_true_iff in H. destruct H as [H Honly].
  apply andb_true_iff in H. destruct H as [H Hd].
  apply andb_true_iff in H. destruct H as [Hc Hr].
  destruct (has_numeric_lookup _ _ Hc) as (c & Lc & Nc).
  destruct (has_numeric_lookup _ _ Hr) as (r & Lr & Nr).
  destruct (has_numeric_lookup _ _ Hd) as (dk & Ld & Nd).
  exists (VObj Machine [("cores", c); ("ram", r); ("disk", dk)]),
         (VDict [("cores", c); ("ram", r); ("disk", dk)]).
  split.
  { unfold Machine_new, mapping, outcome_bind at 1.
    rewrite call_kwargs_only by exact Honly.
    simpl. now rewrite Lc, Lr, Ld. }
  split.
  { rewrite traverse_obj by now destruct self.
    simpl. now rewrite !traverse_numeric. }
  split.
  { simpl. rewrite Lc, Lr, Ld, !value_eq_numeric by assumption. simpl.
    apply (only_keys_has_key [("cores", c); ("ram", r); ("disk", dk)]).
    exact Honly. }
  simpl. now rewrite !jsonable_numeric.
Qed.

Lemma machines_there_and_back self key ms :
  forallb is_machine_only ms = true ->
  exists os ds,
    machines_of ms = Ok os /\
    _traverse_list self key os = Ok ds /\
    value_eq (VList ds) (VList ms) = true /\ forallb jsonable ds = true.
Proof.
  induction ms as [| m ms IH]; intros H.
  - exists [], []. repeat split; reflexivity.
  - simpl in H. apply andb_true_iff in H. destruct H as [Hm Hms].
    destruct (machine_there_and_back self key m Hm) as (o & d & E1 & E2 & E3 & E4).
    destruct (IH Hms) as (os & ds & F1 & F2 & F3 & F4).
    exists (o :: os), (d :: ds). split.
    { simpl. now rewrite E1, F1. }
    split.
    { simpl. now rewrite E2, F2. }
    split.
    { rewrite value_eq_cons. now rewrite E3, F3. }
    simpl. now rewrite E4, F4.
Qed.

(** C5, as amended.  Over a JSON library that reads back what it writes: for
    every JSON text whose parse is an object with exactly the keys ['switch']
    and ['machines'], the first mapped to an object with exactly the keys
    ['ports'] and ['speed'], both numeric, the second to a list of objects
    each with exactly the keys ['cores'], ['ram'] and ['disk'], all numeric,
    [DatacenterRack.from_json] returns a rack, [to_json] returns a text for
    it, and the parse of that text equals the parse of the input. *)
Theorem rack_roundtrip (text : Type) (json_loads : text -> outcome value)
    (json_dumps : value -> outcome text) (data : text) (kwargs : value) :
  reads_back text json_loads json_dumps ->
  json_loads data = Ok kwargs ->
  is_rack_only kwargs = true ->
  exists rack out parsed,
    from_json text json_loads DatacenterRack data = Ok rack /\
    to_json text json_dumps rack = Ok out /\
    json_loads out = Ok parsed /\
    value_eq parsed kwargs = true.
Proof.
  intros Hlib Hdata Hrack.
  destruct kwargs as [| | | | | | kw |]; try discriminate. simpl in Hrack.
  apply andb_true_iff in Hrack. destruct Hrack as [Honly Hrack].
  destruct (lookup_key "switch" kw) as [sv |] eqn:Ls; [| discriminate].
  destruct (lookup_key "machines" kw) as [mv |] eqn:Lm; [| discriminate].
  destruct mv as [| | | | | ms | |]; try discriminate.
  apply andb_true_iff in Hrack. destruct Hrack as [Hsw Hms].
  destruct (switch_there_and_back DatacenterRack "switch" sv Hsw)
    as (so & sd & S1 & S2 & S3 & S4).
  destruct (machines_there_and_back DatacenterRack "machines" ms Hms)
    as (os & ds & M1 & M2 & M3 & M4).
  set (d := VDict [("switch", sd); ("machines", VList ds)]).
  assert (Hjson : jsonable d = true) by (simpl; now rewrite S4, M4).
  destruct (Hlib d Hjson) as (out & Hout & Hback).
  exists (VObj DatacenterRack [("switch", so); ("machines", VList os)]), out, d.
  split.
  { unfold from_json. cbn [is_JsonMixin]. rewrite Hdata.
    unfold outcome_bind at 1, new, DatacenterRack_new, mapping, outcome_bind at 1.
    rewrite call_kwargs_only by exact Honly.
    simpl. rewrite Ls, Lm. simpl. now rewrite S1, M1. }
  split.
  { unfold to_json. cbn [to_dict is_JsonMixin is_ToDictMixin _traverse_dict].
    rewrite S2, traverse_list, M2. exact Hout. }
  split; [exact Hback |].
  unfold d.
  change (value_eq (VDict [("switch", sd); ("machines", VList ds)]) (VDict kw))
    with ((match lookup_key "switch" kw with
           | Some v' => value_eq sd v'
           | None => false
           end &&
           (match lookup_key "machines" kw with
            | Some v' => value_eq (VList ds) v'
            | None => false
            end && true)) &&
          forallb (fun kv => has_key (fst kv)
                     [("switch", sd); ("machines", VList ds)]) kw).
  rewrite Ls, Lm, S3, M3. simpl.
  apply (only_keys_has_key [("switch", sd); ("machines", VList ds)]).
  exact Honly.
Qed.

Lemma plain_reads_back : reads_back value plain_loads plain_dumps.
Proof. intros v _. exists v. split; reflexivity. Qed.

(** The document of the source goes there and back. *)
Lemma rack_roundtrip_witness :
  exists rack out parsed,
    from_json value plain_loads DatacenterRack serialized = Ok rack /\
    to_json value plain_dumps rack = Ok out /\
    plain_loads out = Ok parsed /\
    value_eq parsed serialized = true.
Proof.
  apply (rack_roundtrip value plain_loads plain_dumps serialized serialized).
  - exact plain_reads_back.
  - reflexivity.
  - vm_compute. reflexivity.
Defined.

(** C5, as stated, fails: a document with the keys the claim names and one
    more is refused by the constructor it is passed to, and [from_json]
    raises [TypeError]. *)
Lemma one_more_key_raises :
  reads_back value plain_loads plain_dumps /\
  plain_loads tagged_rack = Ok tagged_rack /\
  is_rack tagged_rack = true /\
  from_json value plain_loads DatacenterRack tagged_rack = Raise TypeError.
Proof.
  split; [exact plain_reads_back |].
  split; [reflexivity |].
  split; vm_compute; reflexivity.
Qed.

End Item26Facts.

(** ** Errors *)

(** C7.  No handler stands between an I/O error and the caller.  When the
    file system answers [open(path).read()] with an exception [e],
    [PathInputData.read] (both definitions) raises [e] and changes nothing,
    and so does [LineCountWorker.map] of a worker over that path.  In the
    serialization example an exception of [json.loads] or [json.dumps]
    comes out of [from_json] and [to_json] as it is.  The bucket operations
    [fill], [deduct] and the [quota] assignment do the same over any file
    system: they consult no file, so no I/O error reaches them. *)
Theorem errors_propagate (path : string) (e : exn) (w : Item24.World)
    (self : positive) (o : Item24.worker) :
  files (env w) path = Raise e ->
  heap w !! self = Some o ->
  Item24.cls o = Item24.LineCountWorker ->
  Item24.input_data o = Item24.PathInputData path ->
  Item24.read (Item24.PathInputData path) w = (Raise e, w) /\
  Item24.map self w = (Raise e, w) /\
  (forall text (loads : text -> outcome Item26.value) cls data,
     Item26.is_JsonMixin cls = true ->
     loads data = Raise e -> Item26.from_json text loads cls data = Raise e) /\
  (forall text (dumps : Item26.value -> outcome text) cls attrs d,
     Item26.is_JsonMixin cls = true ->
     Item26.to_dict (Item26.VObj cls attrs) = Ok d -> dumps d = Raise e ->
     Item26.to_json text dumps (Item26.VObj cls attrs) = Raise e) /\
  (forall bucket amount,
     Item30.blind (Item30.fill bucket amount) /\
     Item30.blind (Item30.deduct bucket amount) /\
     Item30.blind (Item30.setattr (Item30.obj_set_quota amount) bucket)).
Proof.
  intros Hfile Hl Hc Hin.
  assert (Hread : Item24.read (Item24.PathInputData path) w = (Raise e, w)).
  { unfold Item24.read, Item24.open_read. now rewrite Hfile. }
  split; [exact Hread |].
  split.
  { rewrite (Item24Facts.map_eq self w o Hl Hc), Hin, Hread. reflexivity. }
  split.
  { intros text loads cls data Hcls H. unfold Item26.from_json.
    now rewrite Hcls, H. }
  split.
  { intros text dumps cls attrs d Hcls Hd H. unfold Item26.to_json.
    now rewrite Hcls, Hd. }
  intros bucket amount.
  split; [apply Item30Facts.blind_fill |].
  split; [apply Item30Facts.blind_deduct | apply Item30Facts.blind_setattr].
Qed.

(** A worker over a path the file system does not hold: [read] and [map]
    raise the [OSError] of the file system. *)
Lemma errors_propagate_witness :
  let w := snd (Item24.Worker_init Item24.LineCountWorker
                  (Item24.PathInputData "/tmp/b")
                  (boot (Item24.one_file_env "/tmp/a" Item24.two_lines))) in
  Item24.read (Item24.PathInputData "/tmp/b") w = (Raise (OSError "ENOENT"), w) /\
  Item24.map 1%positive w = (Raise (OSError "ENOENT"), w).
Proof.
  intros w.
  destruct (errors_propagate "/tmp/b" (OSError "ENOENT") w 1%positive
              {| Item24.cls := Item24.LineCountWorker;
                 Item24.input_data := Item24.PathInputData "/tmp/b";
                 Item24.result := Item24.PNone |})
    as (Hread & Hmap & _); try reflexivity.
  split; [exact Hread | exact Hmap].
Defined.

(** ** More of item 30 *)

Module Item30MoreFacts.
Import Item30 Item30More Item30Facts.

(** *** The three regimes of a call *)

Lemma setattr_ok f l w o o' :
  heap w !! l = Some o -> f o = Ok o' ->
  setattr f l w = (Ok tt, {| env := env w; heap := <[l := o']> (heap w) |}).
Proof. intros Hl Hf. rewrite (setattr_eq f l w o Hl). now rewrite Hf. Qed.

(** Assigning [0] always goes through, on both classes. *)
Lemma obj_set_quota_zero ob :
  exists ob1,
    obj_set_quota 0 ob = Ok ob1 /\ obj_quota ob1 = 0 /\
    obj_reset_time ob1 = obj_reset_time ob /\
    obj_period_delta ob1 = obj_period_delta ob /\
    same_class ob ob1 /\
    match ob1 with
    | Attr _ => True
    | Prop_ p => max_quota p = 0 /\ quota_consumed p = 0
    end.
Proof.
  destruct ob as [a | p]; eexists; (split; [reflexivity |]); simpl; auto.
  unfold quota_getter. simpl. repeat split; reflexivity.
Qed.

(** Assigning to a bucket that holds nothing and has consumed nothing always
    goes through and is reported as assigned. *)
Lemma obj_set_quota_empty v ob :
  match ob with
  | Attr _ => True
  | Prop_ p => max_quota p = 0 /\ quota_consumed p = 0
  end ->
  exists ob',
    obj_set_quota v ob = Ok ob' /\ obj_quota ob' = v /\
    obj_reset_time ob' = obj_reset_time ob /\
    obj_period_delta ob' = obj_period_delta ob /\
    same_class ob ob'.
Proof.
  destruct ob as [a | p]; simpl.
  - intros _. eexists. split; [reflexivity |]. simpl. auto.
  - intros [Hm Hc].
    destruct (quota_setter_calm p v) as (p' & Hset & Hget & Hrt & Hpd & _);
      [lia | now right |].
    exists (Prop_ p'). rewrite Hset. simpl. auto.
Qed.

Lemma obj_set_reset_time_ok t ob :
  exists ob2,
    obj_set_reset_time t ob = Ok ob2 /\ obj_reset_time ob2 = t /\
    obj_quota ob2 = obj_quota ob /\
    obj_period_delta ob2 = obj_period_delta ob /\
    same_class ob ob2 /\
    match ob, ob2 with
    | Prop_ p, Prop_ p2 =>
        max_quota p2 = max_quota p /\ quota_consumed p2 = quota_consumed p
    | _, _ => True
    end.
Proof.
  destruct ob; eexists; (split; [reflexivity |]); simpl; repeat split; auto.
Qed.

Lemma fill_expired l amount w ob t0 :
  heap w !! l = Some ob ->
  obj_reset_time ob = Datetime t0 ->
  obj_period_delta ob < clock (env w) (ticks (env w)) - t0 ->
  exists ob1 ob2 ob',
    obj_set_quota 0 ob = Ok ob1 /\
    obj_set_reset_time (Int 0) ob1 = Ok ob2 /\
    obj_set_quota (obj_quota ob2 + amount) ob2 = Ok ob' /\
    fill l amount w =
      (Ok tt, {| env := tick (env w); heap := <[l := ob']> (heap w) |}) /\
    obj_quota ob' = amount /\ obj_reset_time ob' = Int 0 /\
    obj_period_delta ob' = obj_period_delta ob /\ same_class ob ob'.
Proof.
  intros Hl Ht Hout.
  assert (Hgt : (clock (env w) (ticks (env w)) - t0 >? obj_period_delta ob) = true)
    by (rewrite Z.gtb_ltb; apply Z.ltb_lt; lia).
  destruct (obj_set_quota_zero ob) as (ob1 & E1 & Q1 & T1 & P1 & C1 & Z1).
  destruct (obj_set_reset_time_ok (Int 0) ob1) as (ob2 & E2 & T2 & Q2 & P2 & C2 & Z2).
  assert (Hempty : match ob2 with
                   | Attr _ => True
                   | Prop_ p => max_quota p = 0 /\ quota_consumed p = 0
                   end).
  { destruct ob1, ob2; simpl in *; try contradiction; auto.
    destruct Z1, Z2. split; congruence. }
  destruct (obj_set_quota_empty (obj_quota ob2 + amount) ob2 Hempty)
    as (ob' & E3 & Q3 & T3 & P3 & C3).
  exists ob1, ob2, ob'. repeat split; try assumption.
  - unfold fill.
    eval_bind Hl. eval_bind Hl. rewrite Ht. eval_bind Hl. eval_bind Hl.
    rewrite Hgt.
    erewrite bind_ok.
    2:{ erewrite bind_ok; [| apply (setattr_ok _ _ _ ob ob1); [exact Hl | exact E1]].
        apply (setattr_ok _ _ _ ob1 ob2); [apply lookup_insert_eq | exact E2]. }
    erewrite bind_ok; [| apply getattr_eq; apply lookup_insert_eq].
    rewrite (setattr_ok _ _ _ ob2 ob' (lookup_insert_eq _ _ _) E3).
    simpl. now rewrite !insert_insert_eq.
  - lia.
  - congruence.
  - congruence.
  - eapply same_class_trans; [exact C1 |].
    eapply same_class_trans; [exact C2 | exact C3].
Qed.

Lemma deduct_expired l amount w ob t0 :
  heap w !! l = Some ob ->
  obj_reset_time ob = Datetime t0 ->
  obj_period_delta ob < clock (env w) (ticks (env w)) - t0 ->
  deduct l amount w = (Ok false, {| env := tick (env w); heap := heap w |}).
Proof.
  intros Hl Ht Hout.
  assert (Hgt : (clock (env w) (ticks (env w)) - t0 >? obj_period_delta ob) = true)
    by (rewrite Z.gtb_ltb; apply Z.ltb_lt; lia).
  unfold deduct.
  eval_bind Hl. eval_bind Hl. rewrite Ht. eval_bind Hl. eval_bind Hl.
  now rewrite Hgt.
Qed.

Lemma fill_int_stamp l amount w ob z :
  heap w !! l = Some ob ->
  obj_reset_time ob = Int z ->
  fill l amount w = (Raise TypeError, {| env := tick (env w); heap := heap w |}).
Proof.
  intros Hl Ht. unfold fill. eval_bind Hl. eval_bind Hl. rewrite Ht.
  reflexivity.
Qed.

Lemma deduct_int_stamp l amount w ob z :
  heap w !! l = Some ob ->
  obj_reset_time ob = Int z ->
  deduct l amount w = (Raise TypeError, {| env := tick (env w); heap := heap w |}).
Proof.
  intros Hl Ht. unfold deduct. eval_bind Hl. eval_bind Hl. rewrite Ht.
  reflexivity.
Qed.

(** Whatever the clock and the state of the bucket, a call leaves an object
    at the reference, related to the one it found by [effect]; when the call
    returns, the quota it reports is the one of the object it leaves. *)
Lemma perform_effect l o w ob :
  heap w !! l = Some ob ->
  exists ob',
    heap (snd (perform l o w)) !! l = Some ob' /\
    effect o ob ob' /\
    (forall x, fst (perform l o w) = Ok x -> obs_quota x = obj_quota ob').
Proof.
  intros Hl.
  destruct (obj_reset_time ob) as [t0 | z] eqn:Ht.
  - destruct (Z_le_gt_dec (clock (env w) (ticks (env w)) - t0) (obj_period_delta ob))
      as [Hin | Hout].
    + rewrite (perform_in_period l o w ob t0 Hl Ht Hin).
      destruct o as [amount | amount]; simpl.
      * destruct (obj_set_quota (obj_quota ob + amount) ob) as [ob' | e] eqn:E;
          simpl.
        -- exists ob'. rewrite lookup_insert_eq. split; [reflexivity |].
           split; [now apply (effect_assign _ _ (obj_quota ob + amount)) |].
           now intros x [= <-].
        -- exists ob. split; [exact Hl |]. split; [constructor | discriminate].
      * destruct (obj_quota ob - amount <? 0) eqn:Hlow; simpl.
        -- exists ob. rewrite lookup_insert_eq. split; [reflexivity |].
           split; [constructor | now intros x [= <-]].
        -- destruct (obj_set_quota (obj_quota ob - amount) ob) as [ob' | e] eqn:E;
             simpl.
           ++ exists ob'. rewrite lookup_insert_eq. split; [reflexivity |].
              split; [| now intros x [= <-]].
              apply (effect_assign _ _ (obj_quota ob - amount)); [| exact E].
              simpl. now rewrite Hlow.
           ++ exists ob. split; [exact Hl |]. split; [constructor | discriminate].
    + destruct o as [amount | amount]; unfold perform.
      * destruct (fill_expired l amount w ob t0 Hl Ht)
          as (ob1 & ob2 & ob' & E1 & E2 & E3 & Hfill & _); [lia |].
        erewrite bind_ok; [| exact Hfill].
        erewrite bind_ok; [| apply getattr_eq; apply lookup_insert_eq].
        exists ob'. simpl. rewrite lookup_insert_eq. split; [reflexivity |].
        split; [now apply (effect_expired _ _ amount ob1 ob2) |].
        now intros x [= <-].
      * erewrite bind_ok; [| apply (deduct_expired l amount w ob t0 Hl Ht); lia].
        erewrite bind_ok; [| apply getattr_eq; exact Hl].
        exists ob. split; [exact Hl |].
        split; [constructor | now intros x [= <-]].
  - exists ob. destruct o as [amount | amount]; unfold perform.
    + erewrite bind_raise; [| apply (fill_int_stamp l amount w ob z Hl Ht)].
      split; [exact Hl |]. split; [constructor | discriminate].
    + erewrite bind_raise; [| apply (deduct_int_stamp l amount w ob z Hl Ht)].
      split; [exact Hl |]. split; [constructor | discriminate].
Qed.

(** A property of the object that every effect of the calls of a script
    preserves holds of the object the script leaves, and of every quota it
    reports when the property bounds the quota. *)
Lemma run_effect (I : object -> Prop) l ops :
  (forall o ob ob', In o ops -> I ob -> effect o ob ob' -> I ob') ->
  forall w ob,
    heap w !! l = Some ob -> I ob ->
    (exists ob', heap (snd (run l ops w)) !! l = Some ob' /\ I ob') /\
    (forall x, In (Ok x) (fst (run l ops w)) ->
       exists ob', I ob' /\ obs_quota x = obj_quota ob').
Proof.
  induction ops as [| o ops IH]; intros Hstep w ob Hl HI.
  - simpl. split; [eauto | contradiction].
  - destruct (perform_effect l o w ob Hl) as (ob1 & Hl1 & Heff & Hobs).
    assert (HI1 : I ob1) by (eapply Hstep; [left; reflexivity | exact HI | exact Heff]).
    simpl. destruct (perform l o w) as [[x | e] w1] eqn:E; simpl in *.
    + destruct (IH (fun o' a b Hin => Hstep o' a b (or_intror Hin)) w1 ob1 Hl1 HI1)
        as [Hend Hall].
      destruct (run l ops w1) as [xs w2]. simpl in *.
      split; [exact Hend |].
      intros y [[= <-] | Hin]; [| now apply Hall].
      exists ob1. split; [exact HI1 | now apply Hobs].
    + split; [eauto |]. intros y [Hy | []]. discriminate.
Qed.

(** *** Expiry *)

(** X1.  A filled bucket's quota does not carry from one period to the next:
    a [fill] that finds the period expired returns and leaves the bucket, of
    either class, with [quota = amount] whatever it held, with the integer
    [0] as [reset_time], and with its period and class. *)
Theorem expired_fill_restarts (l : positive) (amount : Z) (w : World)
    (ob : object) (t0 : Z) :
  heap w !! l = Some ob ->
  obj_reset_time ob = Datetime t0 ->
  obj_period_delta ob < clock (env w) (ticks (env w)) - t0 ->
  fst (fill l amount w) = Ok tt /\
  exists ob',
    heap (snd (fill l amount w)) !! l = Some ob' /\
    obj_quota ob' = amount /\ obj_reset_time ob' = Int 0 /\
    obj_period_delta ob' = obj_period_delta ob /\ same_class ob ob'.
Proof.
  intros Hl Ht Hout.
  destruct (fill_expired l amount w ob t0 Hl Ht Hout)
    as (ob1 & ob2 & ob' & _ & _ & _ & Hfill & Hq & Hrt & Hpd & Hc).
  rewrite Hfill. simpl. split; [reflexivity |].
  exists ob'. rewrite lookup_insert_eq. auto.
Qed.

Lemma expired_fill_restarts_witness :
  fst (fill 1%positive 7 late_prop) = Ok tt /\
  exists ob',
    heap (snd (fill 1%positive 7 late_prop)) !! 1%positive = Some ob' /\
    obj_quota ob' = 7 /\ obj_reset_time ob' = Int 0 /\
    obj_period_delta ob' = 60000000 /\
    same_class (Prop_ {| period_delta := 60000000; reset_time := Datetime 0;
                         max_quota := 100; quota_consumed := 0 |}) ob'.
Proof.
  apply (expired_fill_restarts 1%positive 7 late_prop
           (Prop_ {| period_delta := 60000000; reset_time := Datetime 0;
                     max_quota := 100; quota_consumed := 0 |}) 0).
  - vm_compute. reflexivity.
  - reflexivity.
  - vm_compute. reflexivity.
Defined.

(** X2.  After a [fill] that finds the period expired the bucket is of no
    further use: [reset_time] holds an integer, so every later [fill] and
    [deduct], whatever the clock reads, raises [TypeError] on the
    subtraction and leaves the store as it was. *)
Theorem after_expired_fill_raises (l : positive) (amount : Z) (w : World)
    (ob : object) (t0 : Z) :
  heap w !! l = Some ob ->
  obj_reset_time ob = Datetime t0 ->
  obj_period_delta ob < clock (env w) (ticks (env w)) - t0 ->
  forall (later : nat -> Z) (more : nat) (amount' : Z),
    let w' := {| env := {| clock := later;
                           ticks := ticks (env (snd (fill l amount w))) + more;
                           files := files (env w); stdout := stdout (env w) |};
                 heap := heap (snd (fill l amount w)) |} in
    fst (fill l amount' w') = Raise TypeError /\
    heap (snd (fill l amount' w')) = heap w' /\
    fst (deduct l amount' w') = Raise TypeError /\
    heap (snd (deduct l amount' w')) = heap w'.
Proof.
  intros Hl Ht Hout later more amount' w'.
  destruct (fill_expired l amount w ob t0 Hl Ht Hout)
    as (ob1 & ob2 & ob' & _ & _ & _ & Hfill & _ & Hrt & _).
  assert (Hw' : heap w' !! l = Some ob').
  { unfold w'. rewrite Hfill. simpl. apply lookup_insert_eq. }
  rewrite (fill_int_stamp l amount' w' ob' 0 Hw' Hrt).
  rewrite (deduct_int_stamp l amount' w' ob' 0 Hw' Hrt).
  simpl. auto.
Qed.

Lemma after_expired_fill_raises_witness :
  let w' := {| env := {| clock := fun _ => 0;
                         ticks := ticks (env (snd (fill 1%positive 7 late_attr))) + 0;
                         files := files (env late_attr);
                         stdout := stdout (env late_attr) |};
               heap := heap (snd (fill 1%positive 7 late_attr)) |} in
  fst (fill 1%positive 5 w') = Raise TypeError /\
  heap (snd (fill 1%positive 5 w')) = heap w' /\
  fst (deduct 1%positive 5 w') = Raise TypeError /\
  heap (snd (deduct 1%positive 5 w')) = heap w'.
Proof.
  apply (after_expired_fill_raises 1%positive 7 late_attr
           (Attr {| a_period_delta := 60000000; a_reset_time := Datetime 0;
                    a_quota := 100 |}) 0).
  - vm_compute. reflexivity.
  - reflexivity.
  - vm_compute. reflexivity.
Defined.

(** X3.  [deduct] ensures that the requested amount is available.  On a
    bucket of either class, in any state and at any time, a call either
    leaves the store untouched and does not return [True], or it returns
    [True], and then it found the period running and the amount within the
    quota, and it assigned [quota - amount]. *)
Theorem deduct_contract (l : positive) (amount : Z) (w : World) (ob : object) :
  heap w !! l = Some ob ->
  (fst (deduct l amount w) <> Ok true /\
   heap (snd (deduct l amount w)) = heap w) \/
  (fst (deduct l amount w) = Ok true /\
   0 <= obj_quota ob - amount /\
   (exists t0, obj_reset_time ob = Datetime t0 /\
      clock (env w) (ticks (env w)) - t0 <= obj_period_delta ob) /\
   exists ob',
     obj_set_quota (obj_quota ob - amount) ob = Ok ob' /\
     heap (snd (deduct l amount w)) = <[l := ob']> (heap w)).
Proof.
  intros Hl.
  destruct (obj_reset_time ob) as [t0 | z] eqn:Ht.
  - destruct (Z_le_gt_dec (clock (env w) (ticks (env w)) - t0) (obj_period_delta ob))
      as [Hin | Hout].
    + rewrite (deduct_in_period l amount w ob t0 Hl Ht Hin).
      destruct (Z.ltb_spec (obj_quota ob - amount) 0) as [Hlow | Hhigh].
      * left. simpl. split; [discriminate | reflexivity].
      * destruct (obj_set_quota (obj_quota ob - amount) ob) as [ob' | e] eqn:E.
        -- right. simpl. split; [reflexivity |]. split; [exact Hhigh |].
           split; [exists t0; auto | exists ob'; auto].
        -- left. simpl. split; [discriminate | reflexivity].
    + left. rewrite (deduct_expired l amount w ob t0 Hl Ht) by lia.
      simpl. split; [discriminate | reflexivity].
  - left. rewrite (deduct_int_stamp l amount w ob z Hl Ht).
    simpl. split; [discriminate | reflexivity].
Qed.

Lemma deduct_contract_witness :
  (fst (deduct 1%positive 30 filled_prop) <> Ok true /\
   heap (snd (deduct 1%positive 30 filled_prop)) = heap filled_prop) \/
  (fst (deduct 1%positive 30 filled_prop) = Ok true /\
   0 <= obj_quota (Prop_ {| period_delta := 60000000; reset_time := Datetime 0;
                            max_quota := 100; quota_consumed := 0 |}) - 30 /\
   (exists t0,
      obj_reset_time (Prop_ {| period_delta := 60000000; reset_time := Datetime 0;
                               max_quota := 100; quota_consumed := 0 |}) = Datetime t0 /\
      clock (env filled_prop) (ticks (env filled_prop)) - t0 <=
      obj_period_delta (Prop_ {| period_delta := 60000000; reset_time := Datetime 0;
                                 max_quota := 100; quota_consumed := 0 |})) /\
   exists ob',
     obj_set_quota
       (obj_quota (Prop_ {| period_delta := 60000000; reset_time := Datetime 0;
                            max_quota := 100; quota_consumed := 0 |}) - 30)
       (Prop_ {| period_delta := 60000000; reset_time := Datetime 0;
                 max_quota := 100; quota_consumed := 0 |}) = Ok ob' /\
     heap (snd (deduct 1%positive 30 filled_prop)) =
       <[1%positive := ob']> (heap filled_prop)).
Proof.
  apply (deduct_contract 1%positive 30 filled_prop
           (Prop_ {| period_delta := 60000000; reset_time := Datetime 0;
                     max_quota := 100; quota_consumed := 0 |})).
  vm_compute. reflexivity.
Defined.

(** *** What the buckets keep *)

Lemma quota_setter_nonneg p v p' :
  0 <= max_quota p -> 0 <= quota_consumed p ->
  quota_setter p v = Ok p' ->
  0 <= max_quota p' /\ 0 <= quota_consumed p'.
Proof.
  intros Hm Hc. unfold quota_setter.
  destruct (v =? 0); [intros [= <-]; simpl; lia |].
  destruct (Z.ltb_spec (max_quota p - v) 0).
  - destruct (quota_consumed p =? 0); [| discriminate].
    intros [= <-]. simpl. lia.
  - destruct (max_quota p >=? quota_consumed p); [| discriminate].
    intros [= <-]. simpl. lia.
Qed.

Lemma fields_nonneg_set_quota v ob ob' :
  fields_nonneg ob -> obj_set_quota v ob = Ok ob' -> fields_nonneg ob'.
Proof.
  destruct ob as [a | p]; [contradiction |]. simpl. intros [Hm Hc].
  destruct (quota_setter p v) as [p' |] eqn:E; [| discriminate].
  intros [= <-]. simpl. now apply (quota_setter_nonneg p v).
Qed.

Lemma fields_nonneg_set_reset_time t ob ob' :
  fields_nonneg ob -> obj_set_reset_time t ob = Ok ob' -> fields_nonneg ob'.
Proof.
  destruct ob as [a | p]; [contradiction |]. simpl. intros H [= <-]. exact H.
Qed.

Lemma fields_nonneg_effect o ob ob' :
  fields_nonneg ob -> effect o ob ob' -> fields_nonneg ob'.
Proof.
  intros HI [| v ob1 _ Hset | amount ob1 ob2 ob3 _ E1 E2 E3]; [assumption | |].
  - now apply (fields_nonneg_set_quota v ob).
  - eapply fields_nonneg_set_quota; [| exact E3].
    eapply fields_nonneg_set_reset_time; [| exact E2].
    eapply fields_nonneg_set_quota; [| exact E1]. exact HI.
Qed.

Lemma quota_nonneg_set_quota v ob ob' :
  quota_nonneg ob -> 0 <= v -> obj_set_quota v ob = Ok ob' ->
  quota_nonneg ob' /\ obj_quota ob' = v.
Proof.
  destruct ob as [a | p]; [| contradiction]. simpl.
  intros _ Hv [= <-]. simpl. auto.
Qed.

Lemma quota_nonneg_effect o ob ob' :
  fills_nonneg [o] = true ->
  quota_nonneg ob -> effect o ob ob' -> quota_nonneg ob'.
Proof.
  intros Hfill HI [| v ob1 Hv Hset | amount ob1 ob2 ob3 -> E1 E2 E3];
    [assumption | |].
  - apply (quota_nonneg_set_quota v ob); [exact HI | | exact Hset].
    destruct ob as [a | p]; [| contradiction]. simpl in HI, Hv.
    destruct o as [amount | amount]; simpl in Hv, Hfill.
    + injection Hv as <-. rewrite andb_true_r in Hfill.
      apply Z.leb_le in Hfill. lia.
    + destruct (Z.ltb_spec (a_quota a - amount) 0); [discriminate |].
      now injection Hv as <-.
  - simpl in Hfill. rewrite andb_true_r in Hfill. apply Z.leb_le in Hfill.
    destruct (quota_nonneg_set_quota 0 ob ob1 HI (Z.le_refl 0) E1) as [H1 Q1].
    destruct ob1 as [a1 | p1]; [| contradiction]. simpl in E2.
    injection E2 as <-. simpl in E3. injection E3 as <-. simpl in *. lia.
Qed.

(** X4.  A property bucket keeps [0 <= max_quota] and [0 <= quota_consumed]:
    from a fresh bucket, after any script of [fill] and [deduct] calls, with
    any amounts and on any clock, both fields are non-negative. *)
Theorem prop_fields_nonneg (period : Z) (ops : list op) (e : Env) :
  exists l p,
    Bucket_prop period (boot e) = (Ok l, snd (Bucket_prop period (boot e))) /\
    heap (snd (session Bucket_prop period ops e)) !! l = Some (Prop_ p) /\
    0 <= max_quota p /\ 0 <= quota_consumed p.
Proof.
  unfold session.
  set (l := fresh (dom (∅ : gmap positive object))).
  exists l.
  change (Bucket_prop period (boot e)) with
    (@Ok positive l,
     {| env := tick e;
        heap := <[l := Prop_ {| period_delta := timedelta period;
                                reset_time := Datetime (clock e (ticks e));
                                max_quota := 0; quota_consumed := 0 |}]>
                (∅ : gmap positive object) |}).
  destruct (run_effect fields_nonneg l ops
              (fun o ob ob' _ HI Heff => fields_nonneg_effect o ob ob' HI Heff)
              {| env := tick e;
                 heap := <[l := Prop_ {| period_delta := timedelta period;
                                         reset_time := Datetime (clock e (ticks e));
                                         max_quota := 0; quota_consumed := 0 |}]>
                         (∅ : gmap positive object) |}
              _ (lookup_insert_eq _ _ _))
    as [(ob' & Hl' & HI') _]; [simpl; lia |].
  destruct ob' as [a | p]; [contradiction |].
  exists p. split; [reflexivity |]. split; [exact Hl' | exact HI'].
Qed.

(** X5.  A plain bucket never goes into debt: from a fresh bucket, after any
    script of [fill] and [deduct] calls that fills with non-negative amounts,
    on any clock, the quota is non-negative, and so is every quota the
    script reported on the way. *)
Theorem attr_quota_nonneg (period : Z) (ops : list op) (e : Env) :
  fills_nonneg ops = true ->
  (exists l a,
     heap (snd (session Bucket_attr period ops e)) !! l = Some (Attr a) /\
     0 <= a_quota a) /\
  (forall x, In (Ok x) (fst (session Bucket_attr period ops e)) -> 0 <= obs_quota x).
Proof.
  intros Hfills. unfold session.
  set (l := fresh (dom (∅ : gmap positive object))).
  change (Bucket_attr period (boot e)) with
    (@Ok positive l,
     {| env := tick e;
        heap := <[l := Attr {| a_period_delta := timedelta period;
                               a_reset_time := Datetime (clock e (ticks e));
                               a_quota := 0 |}]>
                (∅ : gmap positive object) |}).
  destruct (run_effect quota_nonneg l ops) with
    (w := {| env := tick e;
             heap := <[l := Attr {| a_period_delta := timedelta period;
                                    a_reset_time := Datetime (clock e (ticks e));
                                    a_quota := 0 |}]>
                     (∅ : gmap positive object) |})
    (ob := Attr {| a_period_delta := timedelta period;
                   a_reset_time := Datetime (clock e (ticks e));
                   a_quota := 0 |})
    as [(ob' & Hl' & HI') Hall].
  - intros o ob ob' Hin HI Heff.
    apply (quota_nonneg_effect o ob ob'); [| exact HI | exact Heff].
    unfold fills_nonneg in *. rewrite forallb_forall in Hfills.
    simpl. now rewrite (Hfills o Hin).
  - apply lookup_insert_eq.
  - simpl. lia.
  - split.
    + destruct ob' as [a | p]; [| contradiction]. exists l, a. auto.
    + intros x Hin. destruct (Hall x Hin) as (ob1 & HI1 & ->).
      destruct ob1 as [a | p]; [exact HI1 | contradiction].
Qed.

Lemma attr_quota_nonneg_witness :
  (exists l a,
     heap (snd (session Bucket_attr 60 [Fill 100; Deduct 99; Deduct 3] late_env))
       !! l = Some (Attr a) /\
     0 <= a_quota a) /\
  (forall x,
     In (Ok x) (fst (session Bucket_attr 60 [Fill 100; Deduct 99; Deduct 3] late_env)) ->
     0 <= obs_quota x).
Proof.
  apply (attr_quota_nonneg 60 [Fill 100; Deduct 99; Deduct 3] late_env).
  reflexivity.
Defined.

(** *** The record a property bucket keeps *)

(** X6.  Whenever the setter returns, the bucket it leaves reports [0] if
    [0] was assigned and [amount - quota_consumed] otherwise, with the
    consumption as it was before the assignment; so it reports the quota
    assigned exactly when that quota is [0] or nothing was consumed.  The
    period and [reset_time] are kept. *)
Theorem quota_setter_reports (p p' : PropBucket) (amount : Z) :
  quota_setter p amount = Ok p' ->
  quota_getter p' = (if amount =? 0 then 0 else amount - quota_consumed p) /\
  (quota_getter p' = amount <-> amount = 0 \/ quota_consumed p = 0) /\
  reset_time p' = reset_time p /\ period_delta p' = period_delta p.
Proof.
  unfold quota_setter, quota_getter.
  destruct (Z.eqb_spec amount 0) as [-> | Hn].
  - intros [= <-]. simpl. repeat split; auto.
  - destruct (Z.ltb_spec (max_quota p - amount) 0).
    + destruct (Z.eqb_spec (quota_consumed p) 0) as [Hc | Hc]; [| discriminate].
      intros [= <-]. simpl. rewrite Hc. repeat split; auto; lia.
    + destruct (max_quota p >=? quota_consumed p); [| discriminate].
      intros [= <-]. simpl. repeat split; auto; lia.
Qed.

Lemma quota_setter_reports_witness :
  quota_getter {| period_delta := 60000000; reset_time := Datetime 0;
                  max_quota := 100; quota_consumed := 30 |} =
    (if 80 =? 0 then 0
     else 80 - quota_consumed {| period_delta := 60000000; reset_time := Datetime 0;
                                 max_quota := 100; quota_consumed := 10 |}) /\
  (quota_getter {| period_delta := 60000000; reset_time := Datetime 0;
                   max_quota := 100; quota_consumed := 30 |} = 80 <->
   80 = 0 \/
   quota_consumed {| period_delta := 60000000; reset_time := Datetime 0;
                     max_quota := 100; quota_consumed := 10 |} = 0) /\
  reset_time {| period_delta := 60000000; reset_time := Datetime 0;
                max_quota := 100; quota_consumed := 30 |} = Datetime 0 /\
  period_delta {| period_delta := 60000000; reset_time := Datetime 0;
                  max_quota := 100; quota_consumed := 30 |} = 60000000.
Proof.
  apply (quota_setter_reports
           {| period_delta := 60000000; reset_time := Datetime 0;
              max_quota := 100; quota_consumed := 10 |}
           {| period_delta := 60000000; reset_time := Datetime 0;
              max_quota := 100; quota_consumed := 30 |} 80).
  reflexivity.
Defined.

Lemma quota_setter_fill p amount :
  0 <= max_quota p -> quota_consumed p = 0 -> 0 <= amount ->
  exists p',
    quota_setter p (quota_getter p + amount) = Ok p' /\
    max_quota p' = max_quota p + amount /\ quota_consumed p' = 0 /\
    reset_time p' = reset_time p /\ period_delta p' = period_delta p.
Proof.
  intros Hm Hc Ha. unfold quota_setter, quota_getter. rewrite Hc.
  destruct (Z.eqb_spec (max_quota p - 0 + amount) 0).
  - eexists. split; [reflexivity |]. simpl. repeat split; lia.
  - simpl. destruct (Z.ltb_spec (max_quota p - (max_quota p - 0 + amount)) 0).
    + eexists. split; [reflexivity |]. simpl. repeat split; lia.
    + destruct (Z.geb_spec (max_quota p) 0); [| lia].
      eexists. split; [reflexivity |]. simpl. repeat split; lia.
Qed.

Lemma run_cons l o ops w :
  run l (o :: ops) w =
    match perform l o w with
    | (Ok x, w') => let (xs, w'') := run l ops w' in (Ok x :: xs, w'')
    | (Raise e, w') => ([Raise e], w')
    end.
Proof. reflexivity. Qed.

(** A script of non-negative fills within the period: every call returns,
    nothing is consumed, and [max_quota] grows by the total. *)
Lemma fills_run l amounts : forall w p t0,
  heap w !! l = Some (Prop_ p) ->
  reset_time p = Datetime t0 ->
  (forall n, (ticks (env w) <= n)%nat -> clock (env w) n - t0 <= period_delta p) ->
  Forall (fun a => 0 <= a) amounts ->
  0 <= max_quota p -> quota_consumed p = 0 ->
  Forall returned (fst (run l (fills amounts) w)) /\
  length (fst (run l (fills amounts) w)) = length amounts /\
  exists p',
    heap (snd (run l (fills amounts) w)) !! l = Some (Prop_ p') /\
    max_quota p' = max_quota p + total amounts /\ quota_consumed p' = 0 /\
    reset_time p' = Datetime t0 /\ period_delta p' = period_delta p /\
    clock (env (snd (run l (fills amounts) w))) = clock (env w) /\
    ticks (env (snd (run l (fills amounts) w))) = (ticks (env w) + length amounts)%nat.
Proof.
  induction amounts as [| a amounts IH]; intros w p t0 Hl Ht Hin Hall Hm Hc.
  - simpl. split; [constructor |]. split; [reflexivity |].
    exists p. repeat split; auto; lia.
  - inversion Hall as [| ? ? Ha Hrest]; subst.
    destruct (quota_setter_fill p a Hm Hc Ha) as (p1 & Hset & Hm1 & Hc1 & Ht1 & Hp1).
    change (fills (a :: amounts)) with (Fill a :: fills amounts).
    rewrite run_cons.
    rewrite (perform_in_period l (Fill a) w (Prop_ p) t0 Hl Ht)
      by (simpl; apply Hin; lia).
    cbn [obj_perform obj_quota obj_set_quota]. rewrite Hset.
    cbn [outcome_bind].
    set (w1 := {| env := tick (env w); heap := <[l := Prop_ p1]> (heap w) |}).
    destruct (IH w1 p1 t0) as (Hret & Hlen & p' & Hl' & Hm' & Hc' & Ht' & Hp' & Hck & Htk);
      try assumption.
    + apply lookup_insert_eq.
    + congruence.
    + intros n Hn. rewrite Hp1. apply Hin. simpl in Hn. lia.
    + lia.
    + destruct (run l (fills amounts) w1) as [xs w2]. simpl in *.
      split; [constructor; [exact I | exact Hret] |].
      split; [now rewrite Hlen |].
      exists p'. repeat split; try assumption; try lia; congruence.
Qed.

(** X7.  The property bucket tells which level it started with and how much
    was consumed, for one deduction: within a single period, after fills
    with non-negative amounts, [quota_consumed] is [0] and [max_quota] is
    their total; a [deduct] of an amount within that total then returns
    [True] and leaves [max_quota] at the total with [quota_consumed] at the
    amount - unless it takes the whole quota, which resets both fields to
    [0]. *)
Theorem fills_then_deduct (period : Z) (amounts : list Z) (a : Z) (e : Env) :
  single_period e period ->
  Forall (fun x => 0 <= x) amounts ->
  0 <= a <= total amounts ->
  exists l p p',
    heap (snd (session Bucket_prop period (fills amounts) e)) !! l = Some (Prop_ p) /\
    max_quota p = total amounts /\ quota_consumed p = 0 /\
    fst (deduct l a (snd (session Bucket_prop period (fills amounts) e))) = Ok true /\
    heap (snd (deduct l a (snd (session Bucket_prop period (fills amounts) e)))) !! l
      = Some (Prop_ p') /\
    (if a <? total amounts
     then max_quota p' = total amounts /\ quota_consumed p' = a
     else max_quota p' = 0 /\ quota_consumed p' = 0).
Proof.
  intros Hper Hall Ha. unfold session.
  set (l := fresh (dom (∅ : gmap positive object))).
  set (p0 := {| period_delta := timedelta period;
                reset_time := Datetime (clock e (ticks e));
                max_quota := 0; quota_consumed := 0 |}).
  change (Bucket_prop period (boot e)) with
    (@Ok positive l,
     {| env := tick e; heap := <[l := Prop_ p0]> (∅ : gmap positive object) |}).
  cbv beta iota.
  set (w0 := {| env := tick e; heap := <[l := Prop_ p0]> (∅ : gmap positive object) |}).
  assert (Hin0 : forall n, (ticks (env w0) <= n)%nat ->
            clock (env w0) n - clock e (ticks e) <= period_delta p0)
    by (intros n Hn; simpl in *; apply Hper; lia).
  assert (Hm0 : 0 <= max_quota p0) by (simpl; lia).
  destruct (fills_run l amounts w0 p0 (clock e (ticks e))
              (lookup_insert_eq _ _ _) eq_refl Hin0 Hall Hm0 eq_refl)
    as (_ & _ & p & Hl & Hm & Hc & Ht & Hp & Hck & Htk).
  set (w := snd (run l (fills amounts) w0)) in *.
  simpl in Hm.
  assert (Hnow : clock (env w) (ticks (env w)) - clock e (ticks e) <= period_delta p).
  { rewrite Hck, Htk, Hp. simpl. apply Hper. lia. }
  assert (Hm' : max_quota p = total amounts) by lia.
  exists l, p.
  rewrite (deduct_in_period l a w (Prop_ p) (clock e (ticks e)) Hl Ht Hnow).
  cbn [obj_quota obj_set_quota]. unfold quota_getter. rewrite Hc, Hm'.
  destruct (Z.ltb_spec (total amounts - 0 - a) 0); [lia |].
  unfold quota_setter. rewrite Hc, Hm'.
  destruct (Z.eqb_spec (total amounts - 0 - a) 0) as [Hz | Hz]; cbn [outcome_bind].
  - eexists. cbn [fst snd heap]. rewrite lookup_insert_eq.
    repeat split; try assumption; try reflexivity.
    destruct (Z.ltb_spec a (total amounts)); [lia |]. simpl. auto.
  - destruct (Z.ltb_spec (total amounts - (total amounts - 0 - a)) 0); [lia |].
    destruct (Z.geb_spec (total amounts) 0); [| lia]. cbn [outcome_bind].
    eexists. cbn [fst snd heap]. rewrite lookup_insert_eq.
    repeat split; try assumption; try reflexivity.
    destruct (Z.ltb_spec a (total amounts)); [| lia]. simpl. lia.
Qed.

Lemma fills_then_deduct_witness :
  exists l p p',
    heap (snd (session Bucket_prop 60 (fills [60; 40]) frozen_env)) !! l = Some (Prop_ p) /\
    max_quota p = total [60; 40] /\ quota_consumed p = 0 /\
    fst (deduct l 99 (snd (session Bucket_prop 60 (fills [60; 40]) frozen_env))) = Ok true /\
    heap (snd (deduct l 99 (snd (session Bucket_prop 60 (fills [60; 40]) frozen_env)))) !! l
      = Some (Prop_ p') /\
    (if 99 <? total [60; 40]
     then max_quota p' = total [60; 40] /\ quota_consumed p' = 99
     else max_quota p' = 0 /\ quota_consumed p' = 0).
Proof.
  apply (fills_then_deduct 60 [60; 40] 99 frozen_env).
  - apply frozen_single_period. lia.
  - repeat constructor; lia.
  - simpl. lia.
Defined.

End Item30MoreFacts.

(** ** More of item 24 *)

Module Item24MoreFacts.
Import Item24 Item24More Item24Facts.

(** [map] changes nothing, whatever the reference holds. *)
Lemma map_state l w : snd (map l w) = w.
Proof.
  unfold map, bind, load. destruct (heap w !! l) as [o |] eqn:Hl; [| reflexivity].
  destruct (cls o); [reflexivity |].
  pose proof (read_state (input_data o) w) as Hs.
  destruct (read (input_data o) w) as [[data | e] w']; simpl in *; now subst.
Qed.

Lemma Worker_init_eq c input w :
  Worker_init c input w =
    (Ok (fresh (dom (heap w))),
     {| env := env w;
        heap := <[fresh (dom (heap w)) :=
                  {| cls := c; input_data := input; result := PNone |}]> (heap w) |}).
Proof. reflexivity. Qed.

Lemma create_workers_spec (input_list : list InputData) (w : World) :
  exists workers w',
    create_workers input_list w = (Ok workers, w') /\
    length workers = length input_list /\
    NoDup workers /\
    (forall l, l ∈ workers -> l ∉ dom (heap w)) /\
    (forall (i : nat) l input,
       workers !! i = Some l -> input_list !! i = Some input ->
       heap w' !! l = Some (fresh_worker input)) /\
    (forall l, l ∈ dom (heap w) -> heap w' !! l = heap w !! l) /\
    env w' = env w.
Proof.
  revert w. induction input_list as [| input rest IH]; intros w.
  - exists [], w. repeat split; auto.
    + constructor.
    + intros l Hl. inversion Hl.
    + intros i l input Hi. destruct i; discriminate.
  - set (l0 := fresh (dom (heap w))).
    set (w1 := {| env := env w;
                  heap := <[l0 := fresh_worker input]> (heap w) |}).
    destruct (IH w1) as (ls & w' & Hrun & Hlen & Hnd & Hnew & Hat & Hold & Henv).
    assert (Hl0 : l0 ∉ dom (heap w)) by apply is_fresh.
    assert (Hdom : dom (heap w1) = {[l0]} ∪ dom (heap w)) by apply dom_insert_L.
    exists (l0 :: ls), w'. split.
    { simpl. unfold bind. rewrite Worker_init_eq. fold l0.
      change {| env := env w;
                heap := <[l0 := {| cls := LineCountWorker; input_data := input;
                                   result := PNone |}]> (heap w) |} with w1.
      now rewrite Hrun. }
    split; [simpl; now rewrite Hlen |].
    split.
    { constructor; [| exact Hnd]. intros Hin. apply (Hnew l0 Hin).
      rewrite Hdom. apply elem_of_union_l, elem_of_singleton. reflexivity. }
    split.
    { intros l Hl. apply elem_of_cons in Hl. destruct Hl as [-> | Hl]; [exact Hl0 |].
      intros Hin. apply (Hnew l Hl). rewrite Hdom. now apply elem_of_union_r. }
    split.
    { intros i l input' Hi Hinput. destruct i as [| i]; simpl in Hi, Hinput.
      - injection Hi as <-. injection Hinput as <-.
        rewrite Hold.
        + apply lookup_insert_eq.
        + rewrite Hdom. apply elem_of_union_l, elem_of_singleton. reflexivity.
      - now apply (Hat i). }
    split; [| exact Henv].
    intros l Hl. rewrite Hold.
    + simpl. apply lookup_insert_ne. intros <-. contradiction.
    + rewrite Hdom. now apply elem_of_union_r.
Qed.

(** X8.  [create_workers] returns one new [LineCountWorker] per input, in
    the order of the inputs: the references are distinct and were not in use,
    each worker holds its input and [None] as [result], every object that
    existed is as it was, and the environment is untouched. *)
Theorem create_workers_fresh (input_list : list InputData) (w : World) :
  exists workers w',
    create_workers input_list w = (Ok workers, w') /\
    length workers = length input_list /\
    NoDup workers /\
    (forall l, l ∈ workers -> l ∉ dom (heap w)) /\
    (forall (i : nat) l input,
       workers !! i = Some l -> input_list !! i = Some input ->
       heap w' !! l = Some (fresh_worker input)) /\
    (forall l, l ∈ dom (heap w) -> heap w' !! l = heap w !! l) /\
    env w' = env w.
Proof. apply create_workers_spec. Qed.

(** [reduce] adds the count of [other] to the count of [self]. *)
Lemma reduce_eq (self other : positive) (w : World) (s o : worker) (x y : Z) :
  heap w !! self = Some s ->
  heap w !! other = Some o ->
  cls s = LineCountWorker ->
  result s = PInt x ->
  result o = PInt y ->
  reduce self other w =
    (Ok tt,
     {| env := env w;
        heap := <[self := {| cls := cls s; input_data := input_data s;
                             result := PInt (x + y) |}]> (heap w) |}).
Proof.
  intros Hs Ho Hc Hx Hy.
  unfold reduce, bind, load, lift, store. now rewrite Hs, Hc, Ho, Hx, Hy.
Qed.

(** X9.  The reduce loop adds up the counts: when [first] and the other
    workers hold integers and [first] is not among the others, the loop of
    [execute] returns and leaves [first] with its count plus the sum of
    theirs, otherwise as it was; the other workers, every other object and
    the environment are untouched. *)
Theorem reduce_rest_sums (first : positive) (rest : list positive)
    (counts : list Z) (w : World) (s : worker) (x : Z) :
  heap w !! first = Some s ->
  cls s = LineCountWorker ->
  result s = PInt x ->
  first ∉ rest ->
  Forall2 (fun l y => exists o, heap w !! l = Some o /\ result o = PInt y) rest counts ->
  fst (reduce_rest first rest w) = Ok tt /\
  heap (snd (reduce_rest first rest w)) !! first =
    Some {| cls := cls s; input_data := input_data s;
            result := PInt (x + sum_of counts) |} /\
  (forall l, l <> first -> heap (snd (reduce_rest first rest w)) !! l = heap w !! l) /\
  env (snd (reduce_rest first rest w)) = env w.
Proof.
  intros Hs Hc Hx Hnotin Hrest.
  assert (Hrest' : Forall2 (fun l y => l <> first /\
                      exists o, heap w !! l = Some o /\ result o = PInt y) rest counts).
  { clear Hs Hc Hx. induction Hrest as [| l y rest counts H _ IH]; constructor.
    - split; [| exact H]. intros ->. apply Hnotin. now left.
    - apply IH. intros Hin. apply Hnotin. now right. }
  clear Hrest Hnotin.
  enough (Hgen : forall (w' : World) s' x',
            heap w' !! first = Some s' -> cls s' = LineCountWorker ->
            result s' = PInt x' ->
            Forall2 (fun l y => l <> first /\
                       exists o, heap w' !! l = Some o /\ result o = PInt y) rest counts ->
            fst (reduce_rest first rest w') = Ok tt /\
            heap (snd (reduce_rest first rest w')) !! first =
              Some {| cls := cls s'; input_data := input_data s';
                      result := PInt (x' + sum_of counts) |} /\
            (forall l, l <> first ->
               heap (snd (reduce_rest first rest w')) !! l = heap w' !! l) /\
            env (snd (reduce_rest first rest w')) = env w')
    by (apply Hgen; assumption).
  clear w s x Hs Hc Hx Hrest'. revert counts.
  induction rest as [| l rest IH]; intros counts w s x Hs Hc Hx Hrest.
  - inversion Hrest; subst. simpl. rewrite Z.add_0_r. repeat split; auto.
    rewrite Hs. destruct s; simpl in *; now subst.
  - inversion Hrest as [| ? y ? counts' (Hne & o & Ho & Hy) Hrest']; subst.
    set (s1 := {| cls := cls s; input_data := input_data s; result := PInt (x + y) |}).
    set (w1 := {| env := env w; heap := <[first := s1]> (heap w) |}).
    assert (Hstep : reduce_rest first (l :: rest) w = reduce_rest first rest w1)
      by exact (bind_ok (reduce first l) (fun _ => reduce_rest first rest) w tt w1
                  (reduce_eq first l w s o x y Hs Ho Hc Hx Hy)).
    rewrite Hstep.
    assert (Hw1 : forall l', l' <> first -> heap w1 !! l' = heap w !! l')
      by (intros l' Hl'; simpl; now apply lookup_insert_ne).
    destruct (IH counts' w1 s1 (x + y)) as (Hret & Hfirst & Hothers & Henv).
    + apply lookup_insert_eq.
    + exact Hc.
    + reflexivity.
    + eapply Forall2_impl; [exact Hrest' |].
      intros l' y' (Hne' & o' & Ho' & Hy'). split; [exact Hne' |].
      exists o'. rewrite (Hw1 l' Hne'). auto.
    + split; [exact Hret |].
      split; [rewrite Hfirst; simpl; f_equal; f_equal; f_equal; lia |].
      split; [| exact Henv].
      intros l' Hl'. rewrite (Hothers l' Hl'). now apply Hw1.
Qed.

Lemma reduce_rest_sums_witness :
  fst (reduce_rest 1%positive [2%positive] (counted 2 3)) = Ok tt /\
  heap (snd (reduce_rest 1%positive [2%positive] (counted 2 3))) !! 1%positive =
    Some {| cls := LineCountWorker; input_data := PathInputData "/tmp/a";
            result := PInt (2 + sum_of [3]) |} /\
  (forall l, l <> 1%positive ->
     heap (snd (reduce_rest 1%positive [2%positive] (counted 2 3))) !! l =
     heap (counted 2 3) !! l) /\
  env (snd (reduce_rest 1%positive [2%positive] (counted 2 3))) = env (counted 2 3).
Proof.
  apply (reduce_rest_sums 1%positive [2%positive] [3] (counted 2 3)
           {| cls := LineCountWorker; input_data := PathInputData "/tmp/a";
              result := PInt 2 |} 2).
  - reflexivity.
  - reflexivity.
  - reflexivity.
  - intros Hin. apply elem_of_cons in Hin. destruct Hin as [Hin | Hin].
    + discriminate.
    + inversion Hin.
  - constructor; [| constructor].
    exists {| cls := LineCountWorker; input_data := PathInputData "/tmp/b";
              result := PInt 3 |}.
    split; reflexivity.
Defined.

(** X10.  The pipeline of the file cannot count: for workers built by
    [create_workers], a [map] on any of them, returning or raising, changes
    nothing, so every [result] is still [None], and a [reduce] between any
    two of them raises [TypeError] and changes nothing either. *)
Theorem map_then_reduce_raises (input_list : list InputData) (w w1 : World)
    (workers : list positive) (first other : positive) :
  create_workers input_list w = (Ok workers, w1) ->
  first ∈ workers ->
  other ∈ workers ->
  (forall l, snd (map l w1) = w1) /\
  reduce first other w1 = (Raise TypeError, w1).
Proof.
  intros Hrun Hfirst Hother.
  split; [intros l; apply map_state |].
  destruct (create_workers_spec input_list w)
    as (ls & w' & Hrun' & Hlen & _ & _ & Hat & _).
  rewrite Hrun in Hrun'. injection Hrun' as <- <-.
  assert (Hworker : forall l, l ∈ workers ->
            exists input, heap w1 !! l = Some (fresh_worker input)).
  { intros l Hl. apply list_elem_of_lookup in Hl. destruct Hl as [i Hi].
    destruct (input_list !! i) as [input |] eqn:Hinput.
    - exists input. now apply (Hat i).
    - apply lookup_ge_None in Hinput. apply lookup_lt_Some in Hi. lia. }
  destruct (Hworker first Hfirst) as (i1 & H1).
  destruct (Hworker other Hother) as (i2 & H2).
  unfold reduce, bind, load, lift. rewrite H1. simpl. rewrite H2. reflexivity.
Qed.

Lemma map_then_reduce_raises_witness :
  (forall l,
     snd (map l (snd (create_workers [PathInputData "/tmp/a"; PathInputData "/tmp/b"]
                        (boot (one_file_env "/tmp/a" two_lines))))) =
     snd (create_workers [PathInputData "/tmp/a"; PathInputData "/tmp/b"]
            (boot (one_file_env "/tmp/a" two_lines)))) /\
  reduce 1%positive 2%positive
    (snd (create_workers [PathInputData "/tmp/a"; PathInputData "/tmp/b"]
            (boot (one_file_env "/tmp/a" two_lines)))) =
  (Raise TypeError,
   snd (create_workers [PathInputData "/tmp/a"; PathInputData "/tmp/b"]
          (boot (one_file_env "/tmp/a" two_lines)))).
Proof.
  apply (map_then_reduce_raises
           [PathInputData "/tmp/a"; PathInputData "/tmp/b"]
           (boot (one_file_env "/tmp/a" two_lines)) _ [1%positive; 2%positive]).
  - vm_compute. reflexivity.
  - apply elem_of_cons. now left.
  - apply elem_of_cons. right. apply elem_of_cons. now left.
Defined.

End Item24MoreFacts.

(** ** More of item 26 *)

Module Item26MoreFacts.
Import Item26 Item26More Item26Facts.

(** *** Induction over values *)

Section ValueInduction.

Variable P : value -> Prop.
Hypothesis HNone : P VNone.
Hypothesis HBool : forall b, P (VBool b).
Hypothesis HInt : forall z, P (VInt z).
Hypothesis HFloat : forall bits, P (VFloat bits).
Hypothesis HStr : forall s, P (VStr s).
Hypothesis HList : forall l, Forall P l -> P (VList l).
Hypothesis HDict : forall d, Forall (fun kv => P (snd kv)) d -> P (VDict d).
Hypothesis HObj : forall c attrs, Forall (fun kv => P (snd kv)) attrs -> P (VObj c attrs).

Fixpoint value_induction (v : value) : P v :=
  let elements :=
    fix elements (l : list value) : Forall P l :=
      match l with
      | [] => @List.Forall_nil _ P
      | x :: rest => @List.Forall_cons _ P x rest (value_induction x) (elements rest)
      end in
  let items :=
    fix items (d : list (string * value)) : Forall (fun kv => P (snd kv)) d :=
      match d with
      | [] => @List.Forall_nil _ (fun kv => P (snd kv))
      | kv :: rest =>
          @List.Forall_cons _ (fun kv => P (snd kv)) kv rest
            (value_induction (snd kv)) (items rest)
      end in
  match v with
  | VNone => HNone
  | VBool b => HBool b
  | VInt z => HInt z
  | VFloat bits => HFloat bits
  | VStr s => HStr s
  | VList l => HList l (elements l)
  | VDict d => HDict d (items d)
  | VObj c attrs => HObj c attrs (items attrs)
  end.

End ValueInduction.

(** *** Plain data *)

Lemma traverse_scalar self key v :
  match v with VList _ | VDict _ | VObj _ _ => False | _ => True end ->
  _traverse self key v = Ok v.
Proof. destruct v; try contradiction; intros _; destruct self; reflexivity. Qed.

Lemma traverse_dict_raises self key d : _traverse self key (VDict d) = Raise TypeError.
Proof. destruct self; reflexivity. Qed.

Lemma traverse_plain self key v :
  plain_data v = true -> _traverse self key v = Ok v.
Proof.
  revert self key. induction v as [| | | | | l IH | d _ | c attrs _] using value_induction;
    intros self key Hplain; try (now apply traverse_scalar); try discriminate.
  rewrite traverse_list.
  assert (Hl : _traverse_list self key l = Ok l).
  { simpl in Hplain. induction IH as [| x rest Hx _ IHrest]; [reflexivity |].
    simpl in Hplain. apply andb_true_iff in Hplain. destruct Hplain as [H1 H2].
    simpl. rewrite (Hx self key H1), (IHrest H2). reflexivity. }
  now rewrite Hl.
Qed.

Lemma value_eq_plain v : plain_data v = true -> value_eq v v = true.
Proof.
  induction v as [| b | z | bits | s | l IH | d _ | c attrs _] using value_induction;
    intros Hplain; try discriminate; try reflexivity.
  - now destruct b.
  - apply Z.eqb_refl.
  - apply Z.eqb_refl.
  - apply String.eqb_refl.
  - simpl in Hplain. induction IH as [| x rest Hx _ IHrest]; [reflexivity |].
    simpl in Hplain. apply andb_true_iff in Hplain. destruct Hplain as [H1 H2].
    rewrite value_eq_cons, (Hx H1). exact (IHrest H2).
Qed.

Lemma jsonable_plain v : plain_data v = true -> jsonable v = true.
Proof.
  induction v as [| | | | | l IH | d _ | c attrs _] using value_induction;
    intros Hplain; try discriminate; try reflexivity.
  simpl in *. induction IH as [| x rest Hx _ IHrest]; [reflexivity |].
  simpl in *. apply andb_true_iff in Hplain. destruct Hplain as [H1 H2].
  now rewrite (Hx H1), (IHrest H2).
Qed.

(** X11.  The traversal hands plain data back as it is: an attribute that
    holds [None], a boolean, a number, a string, or a list of such values to
    any depth comes out of [_traverse] unchanged, whatever the class of
    [self] and the key. *)
Theorem traverse_plain_data (self : class) (key : string) (v : value) :
  plain_data v = true ->
  _traverse self key v = Ok v.
Proof. apply traverse_plain. Qed.

Lemma traverse_plain_data_witness :
  _traverse Switch "ports" (VList [VInt 1; VList [VStr "a"; VNone]; VBool true]) =
  Ok (VList [VInt 1; VList [VStr "a"; VNone]; VBool true]).
Proof.
  apply (traverse_plain_data Switch "ports"
           (VList [VInt 1; VList [VStr "a"; VNone]; VBool true])).
  reflexivity.
Defined.

(** *** What the traversal returns *)

Lemma traverse_dict_keys self attrs d :
  _traverse_dict self attrs = Ok d -> List.map fst d = List.map fst attrs.
Proof.
  revert d. induction attrs as [| [k x] rest IH]; intros d; simpl.
  - now intros [= <-].
  - destruct (_traverse self k x) as [x' |]; [| discriminate]. simpl.
    destruct (_traverse_dict self rest) as [rest' |]; [| discriminate]. simpl.
    intros [= <-]. simpl. now rewrite (IH rest').
Qed.

Lemma distinct_keys_map (d d' : list (string * value)) :
  List.map fst d = List.map fst d' -> distinct_keys d = distinct_keys d'.
Proof.
  revert d'. induction d as [| [k v] rest IH]; intros [| [k' v'] rest'];
    try discriminate; [reflexivity |].
  simpl. intros [= -> Hrest]. rewrite (IH rest' Hrest).
  now rewrite !has_key_existsb, Hrest.
Qed.

Lemma is_parent_link_true self key v :
  is_parent_link self key v = true ->
  self = BinaryTreeWithParent /\ key = "parent" /\
  exists attrs, v = VObj BinaryTreeWithParent attrs.
Proof.
  destruct self; try discriminate.
  destruct v as [| | | | | | | c attrs]; try discriminate.
  destruct c; try discriminate.
  simpl. intros H. apply String.eqb_eq in H. eauto.
Qed.

Lemma traverse_jsonable v : forall self key d,
  tidy v = true -> _traverse self key v = Ok d -> jsonable d = true.
Proof.
  induction v as [| | | | | l IH | d0 _ | c attrs IH] using value_induction;
    intros self key d Htidy Hd;
    try (rewrite traverse_scalar in Hd by exact I; now injection Hd as <-).
  - rewrite traverse_list in Hd.
    destruct (_traverse_list self key l) as [l' |] eqn:El; [| discriminate].
    injection Hd as <-. simpl in *.
    revert l' El. induction IH as [| x rest Hx _ IHrest]; intros l' El.
    + now injection El as <-.
    + simpl in Htidy. apply andb_true_iff in Htidy. destruct Htidy as [H1 H2].
      simpl in El.
      destruct (_traverse self key x) as [x' |] eqn:Ex; [| discriminate].
      destruct (_traverse_list self key rest) as [rest' |]; [| discriminate].
      injection El as <-. simpl.
      now rewrite (Hx self key x' H1 Ex), (IHrest H2 rest' eq_refl).
  - now rewrite traverse_dict_raises in Hd.
  - simpl in Htidy. apply andb_true_iff in Htidy. destruct Htidy as [Htidy Hvalue].
    apply andb_true_iff in Htidy. destruct Htidy as [Hkeys Hattrs].
    destruct (is_parent_link self key (VObj c attrs)) eqn:Hlink.
    + destruct (is_parent_link_true _ _ _ Hlink) as (-> & -> & attrs' & [= -> ->]).
      simpl in Hd. destruct (lookup_key "value" attrs') as [x |]; [| discriminate].
      injection Hd as <-. now apply jsonable_plain.
    + rewrite (traverse_obj self key c attrs Hlink) in Hd.
      set (c' := if is_ToDictMixin c then c else self) in *.
      destruct (_traverse_dict c' attrs) as [d' |] eqn:Ed; [| discriminate].
      injection Hd as <-. simpl.
      rewrite (distinct_keys_map d' attrs (traverse_dict_keys c' attrs d' Ed)), Hkeys.
      simpl. clear Hkeys Hvalue Hlink.
      revert d' Ed. induction IH as [| [k x] rest Hx _ IHrest]; intros d' Ed.
      * now injection Ed as <-.
      * simpl in Hattrs. apply andb_true_iff in Hattrs. destruct Hattrs as [H1 H2].
        simpl in Ed.
        destruct (_traverse c' k x) as [x' |] eqn:Ex; [| discriminate].
        destruct (_traverse_dict c' rest) as [rest' |]; [| discriminate].
        injection Ed as <-. simpl in *.
        now rewrite (Hx c' k x' H1 Ex), (IHrest H2 rest' eq_refl).
Qed.

(** X12.  What [to_dict] returns can be handed to [json.dumps]: for an
    instance built from the classes of the file (each attribute name once,
    plain data as the [value] of a [BinaryTreeWithParent]), whenever
    [to_dict] returns, the result holds no instance, and every dict in it
    holds each key once. *)
Theorem to_dict_jsonable (self d : value) :
  tidy self = true ->
  to_dict self = Ok d ->
  jsonable d = true.
Proof.
  intros Htidy Hd. destruct self as [| | | | | | | c attrs]; try discriminate.
  simpl in Hd. destruct (is_ToDictMixin c) eqn:Hc; [| discriminate].
  apply (traverse_jsonable (VObj c attrs) c "" d Htidy).
  rewrite traverse_obj.
  - now rewrite Hc.
  - destruct c; reflexivity.
Qed.

Lemma to_dict_jsonable_witness :
  jsonable
    (VDict [("value", VInt 10);
            ("left", VDict [("value", VInt 7); ("left", VNone);
                            ("right", VDict [("value", VInt 9); ("left", VNone);
                                             ("right", VNone); ("parent", VInt 7)]);
                            ("parent", VInt 10)]);
            ("right", VNone); ("parent", VNone)]) = true.
Proof.
  apply (to_dict_jsonable root).
  - reflexivity.
  - reflexivity.
Defined.

(** X17.  [to_dict] gives one entry per attribute, under the name of the
    attribute and in the order of the [__dict__]: whenever it returns, for an
    instance of any class, the keys of the dict are the attribute names. *)
Theorem to_dict_keys (c : class) (attrs : list (string * value)) (d : value) :
  to_dict (VObj c attrs) = Ok d ->
  exists items, d = VDict items /\ List.map fst items = List.map fst attrs.
Proof.
  simpl. destruct (is_ToDictMixin c); [| discriminate].
  destruct (_traverse_dict c attrs) as [items |] eqn:E; [| discriminate].
  intros [= <-]. exists items. split; [reflexivity |].
  now apply (traverse_dict_keys c).
Qed.

Lemma to_dict_keys_witness :
  exists items,
    VDict [("value", VInt 10);
           ("left", VDict [("value", VInt 7); ("left", VNone);
                           ("right", VDict [("value", VInt 9); ("left", VNone);
                                            ("right", VNone)])]);
           ("right", VDict [("value", VInt 13);
                            ("left", VDict [("value", VInt 11); ("left", VNone);
                                            ("right", VNone)]);
                            ("right", VNone)])] = VDict items /\
    List.map fst items =
    List.map fst [("value", VInt 10);
                  ("left", BinaryTree_new (VInt 7) VNone
                             (BinaryTree_new (VInt 9) VNone VNone));
                  ("right", BinaryTree_new (VInt 13)
                              (BinaryTree_new (VInt 11) VNone VNone) VNone)].
Proof.
  apply (to_dict_keys BinaryTree).
  reflexivity.
Defined.

(** *** Dicts *)

Lemma traverse_list_raises self key l x e :
  In x l -> _traverse self key x = Raise e ->
  exists e', _traverse_list self key l = Raise e'.
Proof.
  induction l as [| y rest IH]; [contradiction |].
  intros [-> | Hin] Hx; simpl.
  - rewrite Hx. eauto.
  - destruct (_traverse self key y) as [y' | e1]; [| eauto]. simpl.
    destruct (IH Hin Hx) as (e' & ->). eauto.
Qed.

Lemma traverse_attrs_raises self attrs k x e :
  In (k, x) attrs -> _traverse self k x = Raise e ->
  exists e', _traverse_dict self attrs = Raise e'.
Proof.
  induction attrs as [| [k' y] rest IH]; [contradiction |].
  intros [[= -> ->] | Hin] Hx; simpl.
  - rewrite Hx. eauto.
  - destruct (_traverse self k' y) as [y' | e1]; [| eauto]. simpl.
    destruct (IH Hin Hx) as (e' & ->). eauto.
Qed.

Lemma reaches_dict_raises self key v :
  reaches_dict self key v -> exists e, _traverse self key v = Raise e.
Proof.
  induction 1 as [self key d | self key l x Hin _ [e He]
                 | self key c attrs k x Hlink Hin _ [e He]].
  - exists TypeError. apply traverse_dict_raises.
  - rewrite traverse_list.
    destruct (traverse_list_raises self key l x e Hin He) as (e' & ->). eauto.
  - rewrite (traverse_obj self key c attrs Hlink).
    destruct (traverse_attrs_raises _ attrs k x e Hin He) as (e' & ->). eauto.
Qed.

(** X13.  [to_dict] does not return for an instance that leads to a dict:
    when an attribute of an instance of a mix-in class is a dict, or leads
    to one through lists and through the attributes of instances (a parent
    link apart, which is not followed), the call [self._traverse(dict)] of
    line 25 is reached or an earlier error is, and [to_dict] raises. *)
Theorem to_dict_stops_at_dict (c : class) (attrs : list (string * value))
    (k : string) (x : value) :
  is_ToDictMixin c = true ->
  In (k, x) attrs ->
  reaches_dict c k x ->
  exists e, to_dict (VObj c attrs) = Raise e.
Proof.
  intros Hc Hin Hreach. simpl. rewrite Hc.
  destruct (reaches_dict_raises c k x Hreach) as (e & He).
  destruct (traverse_attrs_raises c attrs k x e Hin He) as (e' & ->). eauto.
Qed.

Lemma to_dict_stops_at_dict_witness : exists e, to_dict nested_switch = Raise e.
Proof.
  apply (to_dict_stops_at_dict Switch
           [("ports", VList [VInt 1; VDict [("uplink", VInt 2)]]); ("speed", VInt 1)]
           "ports" (VList [VInt 1; VDict [("uplink", VInt 2)]])).
  - reflexivity.
  - left. reflexivity.
  - apply (reaches_element Switch "ports" _ (VDict [("uplink", VInt 2)])).
    + right. left. reflexivity.
    + apply reaches_here.
Defined.

(** *** Parent links *)

Lemma traverse_parent attrs :
  _traverse BinaryTreeWithParent "parent" (VObj BinaryTreeWithParent attrs) =
  attr_value (VObj BinaryTreeWithParent attrs).
Proof. reflexivity. Qed.

Lemma to_dict_with_parent v l r parent :
  to_dict (BinaryTreeWithParent_new v l r parent) =
    outcome_bind (_traverse BinaryTreeWithParent "value" v) (fun v' =>
    outcome_bind (_traverse BinaryTreeWithParent "left" l) (fun l' =>
    outcome_bind (_traverse BinaryTreeWithParent "right" r) (fun r' =>
    outcome_bind (_traverse BinaryTreeWithParent "parent" parent) (fun p' =>
    Ok (VDict [("value", v'); ("left", l'); ("right", r'); ("parent", p')]))))).
Proof.
  unfold to_dict, BinaryTreeWithParent_new.
  cbn [is_ToDictMixin _traverse_dict].
  destruct (_traverse BinaryTreeWithParent "value" v); [| reflexivity].
  destruct (_traverse BinaryTreeWithParent "left" l); [| reflexivity].
  destruct (_traverse BinaryTreeWithParent "right" r); [| reflexivity].
  destruct (_traverse BinaryTreeWithParent "parent" parent); reflexivity.
Qed.

(** X14.  [to_dict] of a [BinaryTreeWithParent] never descends into the
    parent (the override that prevents cycles): with a
    [BinaryTreeWithParent] as parent, the outcome depends on nothing of the
    parent but its [value], and when [to_dict] returns, the entry under
    ['parent'] is that value. *)
Theorem parent_is_not_traversed (v l r : value)
    (attrs attrs' : list (string * value)) :
  lookup_key "value" attrs = lookup_key "value" attrs' ->
  to_dict (BinaryTreeWithParent_new v l r (VObj BinaryTreeWithParent attrs)) =
  to_dict (BinaryTreeWithParent_new v l r (VObj BinaryTreeWithParent attrs')) /\
  forall d,
    to_dict (BinaryTreeWithParent_new v l r (VObj BinaryTreeWithParent attrs)) =
      Ok (VDict d) ->
    lookup_key "parent" d = lookup_key "value" attrs /\
    lookup_key "parent" d <> None.
Proof.
  intros Hvalue. rewrite !to_dict_with_parent, !traverse_parent.
  unfold attr_value. rewrite <- Hvalue. split; [reflexivity |].
  intros d.
  destruct (_traverse BinaryTreeWithParent "value" v); [| discriminate].
  destruct (_traverse BinaryTreeWithParent "left" l); [| discriminate].
  destruct (_traverse BinaryTreeWithParent "right" r); [| discriminate].
  destruct (lookup_key "value" attrs) as [x |]; [| discriminate].
  simpl. intros [= <-]. simpl. split; [reflexivity | discriminate].
Qed.

Lemma parent_is_not_traversed_witness :
  to_dict (BinaryTreeWithParent_new (VInt 9) VNone VNone
             (VObj BinaryTreeWithParent [("value", VInt 7); ("left", VNone)])) =
  to_dict (BinaryTreeWithParent_new (VInt 9) VNone VNone
             (VObj BinaryTreeWithParent
                [("value", VInt 7); ("left", VDict [("k", VInt 0)])])) /\
  forall d,
    to_dict (BinaryTreeWithParent_new (VInt 9) VNone VNone
               (VObj BinaryTreeWithParent [("value", VInt 7); ("left", VNone)])) =
      Ok (VDict d) ->
    lookup_key "parent" d =
      lookup_key "value" [("value", VInt 7); ("left", VNone)] /\
    lookup_key "parent" d <> None.
Proof.
  apply (parent_is_not_traversed (VInt 9) VNone VNone
           [("value", VInt 7); ("left", VNone)]
           [("value", VInt 7); ("left", VDict [("k", VInt 0)])]).
  reflexivity.
Defined.

(** *** The constructors *)

Lemma bind_params_raises params kw e :
  bind_params params kw = Raise e -> e = TypeError.
Proof.
  induction params as [| [name default] rest IH]; simpl; [discriminate |].
  destruct (lookup_key name kw) as [v |], default as [dv |];
    try (destruct (bind_params rest kw); simpl;
         [discriminate | intros [= <-]; now apply IH]).
  now intros [= <-].
Qed.

Lemma call_kwargs_raises params kw e :
  call_kwargs params kw = Raise e -> e = TypeError.
Proof.
  unfold call_kwargs. destruct (forallb _ kw); [apply bind_params_raises |].
  now intros [= <-].
Qed.

Lemma call_kwargs_ok params kw args :
  call_kwargs params kw = Ok args ->
  only_keys (List.map fst params) kw = true /\ bind_params params kw = Ok args.
Proof.
  unfold call_kwargs, only_keys. destruct (forallb _ kw); [auto | discriminate].
Qed.

Lemma Switch_new_outcome kwargs :
  match Switch_new kwargs with
  | Ok o =>
      exists kw ports speed,
        kwargs = VDict kw /\
        only_keys ["ports"; "speed"] kw = true /\
        lookup_key "ports" kw = Some ports /\
        lookup_key "speed" kw = Some speed /\
        o = VObj Switch [("ports", ports); ("speed", speed)]
  | Raise e => e = TypeError
  end.
Proof.
  unfold Switch_new. destruct kwargs as [| | | | | | kw |]; try reflexivity.
  simpl.
  destruct (call_kwargs [("ports", None); ("speed", None)] kw) as [args | e] eqn:E.
  - apply call_kwargs_ok in E. destruct E as [Honly E]. simpl in E.
    destruct (lookup_key "ports" kw) as [p |] eqn:Lp; [| discriminate].
    destruct (lookup_key "speed" kw) as [sp |] eqn:Ls; [| discriminate].
    injection E as <-. simpl. exists kw, p, sp. repeat split; auto.
  - simpl. now apply call_kwargs_raises in E.
Qed.

Lemma Machine_new_outcome kwargs :
  match Machine_new kwargs with
  | Ok o =>
      exists kw cores ram disk,
        kwargs = VDict kw /\
        only_keys ["cores"; "ram"; "disk"] kw = true /\
        lookup_key "cores" kw = Some cores /\
        lookup_key "ram" kw = Some ram /\
        lookup_key "disk" kw = Some disk /\
        o = VObj Machine [("cores", cores); ("ram", ram); ("disk", disk)]
  | Raise e => e = TypeError
  end.
Proof.
  unfold Machine_new. destruct kwargs as [| | | | | | kw |]; try reflexivity.
  simpl.
  destruct (call_kwargs [("cores", None); ("ram", None); ("disk", None)] kw)
    as [args | e] eqn:E.
  - apply call_kwargs_ok in E. destruct E as [Honly E]. simpl in E.
    destruct (lookup_key "cores" kw) as [c |] eqn:Lc; [| discriminate].
    destruct (lookup_key "ram" kw) as [r |] eqn:Lr; [| discriminate].
    destruct (lookup_key "disk" kw) as [d |] eqn:Ld; [| discriminate].
    injection E as <-. simpl. exists kw, c, r, d. repeat split; auto.
  - simpl. now apply call_kwargs_raises in E.
Qed.

Lemma machines_of_outcome items :
  match machines_of items with
  | Ok ms => Forall2 (fun kwargs m => Machine_new kwargs = Ok m) items ms
  | Raise e => e = TypeError
  end.
Proof.
  induction items as [| kwargs rest IH]; simpl; [constructor |].
  pose proof (Machine_new_outcome kwargs) as Hm.
  destruct (Machine_new kwargs) as [m | e] eqn:E; simpl; [| exact Hm].
  destruct (machines_of rest) as [ms | e]; simpl; [| exact IH].
  constructor; assumption.
Qed.

(** X15.  The call of [DatacenterRack] on keyword arguments either raises
    [TypeError] or returns a rack made of a [Switch] and a list of
    [Machine]s, one per element of ['machines'] in order.  It returns only
    when the arguments are a dict that holds both ['switch'] and
    ['machines'] and nothing else: the defaults of the two parameters,
    [None], are not usable. *)
Theorem DatacenterRack_new_outcome (kwargs : value) :
  match DatacenterRack_new kwargs with
  | Ok o =>
      exists kw switch machines items s ms,
        kwargs = VDict kw /\
        only_keys ["switch"; "machines"] kw = true /\
        lookup_key "switch" kw = Some switch /\
        lookup_key "machines" kw = Some machines /\
        iterate machines = Ok items /\
        Switch_new switch = Ok s /\ Switch_built s /\
        Forall2 (fun kwargs m => Machine_new kwargs = Ok m /\ Machine_built m) items ms /\
        o = VObj DatacenterRack [("switch", s); ("machines", VList ms)]
  | Raise e => e = TypeError
  end.
Proof.
  unfold DatacenterRack_new. destruct kwargs as [| | | | | | kw |]; try reflexivity.
  simpl.
  destruct (call_kwargs [("switch", Some VNone); ("machines", Some VNone)] kw)
    as [args | e] eqn:E; [| simpl; now apply call_kwargs_raises in E].
  apply call_kwargs_ok in E. destruct E as [Honly E]. simpl in E.
  assert (Hargs : exists sw ms, args = [sw; ms] /\
            (lookup_key "switch" kw = Some sw \/
             (lookup_key "switch" kw = None /\ sw = VNone)) /\
            (lookup_key "machines" kw = Some ms \/
             (lookup_key "machines" kw = None /\ ms = VNone))).
  { destruct (lookup_key "switch" kw) as [sw |], (lookup_key "machines" kw) as [ms |];
      injection E as <-; eauto 10. }
  destruct Hargs as (sw & mv & -> & Hsw & Hmv). simpl.
  pose proof (Switch_new_outcome sw) as Hs.
  destruct (Switch_new sw) as [s | e] eqn:Es; simpl; [| exact Hs].
  destruct Hs as (skw & p & sp & -> & _ & _ & _ & Hs).
  destruct Hsw as [Hsw | [_ [=]]].
  destruct (iterate mv) as [items | e] eqn:Ei; simpl.
  2:{ destruct mv; simpl in Ei; try discriminate; now injection Ei as <-. }
  destruct Hmv as [Hmv | [_ ->]]; [| discriminate].
  pose proof (machines_of_outcome items) as Hms.
  destruct (machines_of items) as [ms | e]; simpl; [| exact Hms].
  exists kw, (VDict skw), mv, items, s, ms.
  repeat split; try assumption; try (subst s; now exists p, sp).
  clear - Hms. induction Hms as [| kwargs m items ms Hm _ IH]; constructor; [| exact IH].
  split; [exact Hm |].
  pose proof (Machine_new_outcome kwargs) as H. rewrite Hm in H.
  destruct H as (kw & c & r & d & _ & _ & _ & _ & _ & ->). now exists c, r, d.
Qed.

(** *** Round trips of the flat classes *)

Lemma has_plain_lookup k d :
  has_plain k d = true -> exists v, lookup_key k d = Some v /\ plain_data v = true.
Proof.
  unfold has_plain. destruct (lookup_key k d) as [v |]; [eauto | discriminate].
Qed.

Lemma switch_plain_there_and_back v :
  is_switch_plain v = true ->
  exists o d,
    Switch_new v = Ok o /\ to_dict o = Ok d /\
    (exists attrs, o = VObj Switch attrs) /\
    value_eq d v = true /\ jsonable d = true.
Proof.
  destruct v as [| | | | | | kw |]; try discriminate. simpl.
  intros H. apply andb_true_iff in H. destruct H as [H Hs].
  apply andb_true_iff in H. destruct H as [Honly Hp].
  destruct (has_plain_lookup _ _ Hp) as (p & Lp & Np).
  destruct (has_plain_lookup _ _ Hs) as (sp & Ls & Ns).
  exists (VObj Switch [("ports", p); ("speed", sp)]),
         (VDict [("ports", p); ("speed", sp)]).
  split.
  { unfold Switch_new, mapping, outcome_bind at 1.
    rewrite call_kwargs_only by exact Honly.
    simpl. now rewrite Lp, Ls. }
  split.
  { cbn [to_dict is_ToDictMixin _traverse_dict].
    now rewrite !traverse_plain. }
  split; [eauto |].
  split.
  { simpl. rewrite Lp, Ls, !value_eq_plain by assumption. simpl.
    apply (only_keys_has_key [("ports", p); ("speed", sp)]). exact Honly. }
  simpl. now rewrite !jsonable_plain.
Qed.

Lemma machine_plain_there_and_back v :
  is_machine_plain v = true ->
  exists o d,
    Machine_new v = Ok o /\ to_dict o = Ok d /\
    (exists attrs, o = VObj Machine attrs) /\
    value_eq d v = true /\ jsonable d = true.
Proof.
  destruct v as [| | | | | | kw |]; try discriminate. simpl.
  intros H. apply andb_true_iff in H. destruct H as [H Hd].
  apply andb_true_iff in H. destruct H as [H Hr].
  apply andb_true_iff in H. destruct H as [Honly Hc].
  destruct (has_plain_lookup _ _ Hc) as (c & Lc & Nc).
  destruct (has_plain_lookup _ _ Hr) as (r & Lr & Nr).
  destruct (has_plain_lookup _ _ Hd) as (dk & Ld & Nd).
  exists (VObj Machine [("cores", c); ("ram", r); ("disk", dk)]),
         (VDict [("cores", c); ("ram", r); ("disk", dk)]).
  split.
  { unfold Machine_new, mapping, outcome_bind at 1.
    rewrite call_kwargs_only by exact Honly.
    simpl. now rewrite Lc, Lr, Ld. }
  split.
  { cbn [to_dict is_ToDictMixin _traverse_dict].
    now rewrite !traverse_plain. }
  split; [eauto |].
  split.
  { simpl. rewrite Lc, Lr, Ld, !value_eq_plain by assumption. simpl.
    apply (only_keys_has_key [("cores", c); ("ram", r); ("disk", dk)]).
    exact Honly. }
  simpl. now rewrite !jsonable_plain.
Qed.

(** X16.  [Switch] and [Machine] round-trip on their own, and on more than
    numbers.  Over a JSON library that reads back what it writes: for a text
    whose parse is an object with exactly the keys of the class ([ports] and
    [speed]; [cores], [ram] and [disk]), each mapped to plain data ([None],
    a boolean, a number, a string, or lists of such), [from_json] of the
    class returns an instance, [to_json] returns a text for it, and the parse
    of that text equals the parse of the input. *)
Theorem flat_roundtrip (text : Type) (json_loads : text -> outcome value)
    (json_dumps : value -> outcome text) (cls : class) (data : text)
    (kwargs : value) :
  reads_back text json_loads json_dumps ->
  json_loads data = Ok kwargs ->
  (cls = Switch /\ is_switch_plain kwargs = true) \/
  (cls = Machine /\ is_machine_plain kwargs = true) ->
  exists o out parsed,
    from_json text json_loads cls data = Ok o /\
    to_json text json_dumps o = Ok out /\
    json_loads out = Ok parsed /\
    value_eq parsed kwargs = true.
Proof.
  intros Hlib Hdata [[-> Hshape] | [-> Hshape]].
  - destruct (switch_plain_there_and_back kwargs Hshape)
      as (o & d & Hnew & Hdict & (attrs & ->) & Heq & Hjson).
    destruct (Hlib d Hjson) as (out & Hout & Hback).
    exists (VObj Switch attrs), out, d.
    split; [unfold from_json; cbn [is_JsonMixin]; rewrite Hdata; exact Hnew |].
    split; [unfold to_json; cbn [is_JsonMixin]; rewrite Hdict; exact Hout |].
    split; assumption.
  - destruct (machine_plain_there_and_back kwargs Hshape)
      as (o & d & Hnew & Hdict & (attrs & ->) & Heq & Hjson).
    destruct (Hlib d Hjson) as (out & Hout & Hback).
    exists (VObj Machine attrs), out, d.
    split; [unfold from_json; cbn [is_JsonMixin]; rewrite Hdata; exact Hnew |].
    split; [unfold to_json; cbn [is_JsonMixin]; rewrite Hdict; exact Hout |].
    split; assumption.
Qed.

Lemma flat_roundtrip_witness :
  exists o out parsed,
    from_json value plain_loads Switch labelled_switch = Ok o /\
    to_json value plain_dumps o = Ok out /\
    plain_loads out = Ok parsed /\
    value_eq parsed labelled_switch = true.
Proof.
  apply (flat_roundtrip value plain_loads plain_dumps Switch labelled_switch
           labelled_switch).
  - exact plain_reads_back.
  - reflexivity.
  - left. split; reflexivity.
Defined.

End Item26MoreFacts.
